(** * PoissonSteve-GBA: the animation player of [source/main.c]

    A shallow embedding of the playback code (the three globals, the
    mode 3 frame buffer, [drawFrame], [updateAnimation] and the body of
    the main loop) and the properties of its frame sequencing, its
    colour bars and its two buttons. *)

From Stdlib Require Import ZArith Lia.
From stdpp Require Import base option list.

Local Open Scope Z_scope.

(** ** Machine integers

    [currentFrame] and [frameTimer] are [u16]: a [Z] in [0, 65536), with
    the wrap-around of [++] written out. *)

Module U16.

Definition modulus : Z := 65536.

Definition wrap (z : Z) : Z := z mod modulus.

(** [v++] on a [u16] lvalue. *)
Definition incr (v : Z) : Z := wrap (v + 1).

Definition in_range (v : Z) : Prop := 0 <= v < modulus.

End U16.

(** ** Colours (main.c, lines 15-20) *)

Definition RGB16 (r g b : Z) : Z := r + Z.shiftl g 5 + Z.shiftl b 10.
Definition RED : Z := RGB16 31 0 0.
Definition GREEN : Z := RGB16 0 31 0.
Definition BLUE : Z := RGB16 0 0 31.
Definition BLACK : Z := RGB16 0 0 0.
Definition WHITE : Z := RGB16 31 31 31.

(** ** Keys

    [KEY_A] and [KEY_B] are libgba's bit masks (gba_input.h); [keys] is
    what [keysDown()] returned for the iteration: the keys newly pressed
    since the previous [scanKeys()]. *)

Definition KEY_A : Z := 1.
Definition KEY_B : Z := 2.

(** The C condition [keys & k]. *)
Definition key_down (keys k : Z) : bool := negb (Z.land keys k =? 0).

(** ** The animation data of animation.h

    The header is generated from the source images by the conversion
    step: the three objects it declares (the number of frames, the
    table of the durations in ticks and the table of the frames) are a
    parameter of everything below, with integer entries. The accesses
    are those of main.c: [poisson_durations[currentFrame]] is compared
    with the 16-bit timer as integers, and a frame is read through a
    [const u16*]. *)

Record Animation : Type := {
  poisson_frame_count : Z;
  poisson_durations : list Z;
  poisson_frames : list (list Z)
}.

(** ** The program state: the three globals and the mode 3 frame buffer *)

Record Machine : Type := {
  currentFrame : Z;
  frameTimer : Z;
  playingAnimation : bool;
  videoBuffer : list Z
}.

Definition with_videoBuffer (vb : list Z) (m : Machine) : Machine :=
  {| currentFrame := currentFrame m; frameTimer := frameTimer m;
     playingAnimation := playingAnimation m; videoBuffer := vb |}.

Definition with_frameTimer (t : Z) (m : Machine) : Machine :=
  {| currentFrame := currentFrame m; frameTimer := t;
     playingAnimation := playingAnimation m; videoBuffer := videoBuffer m |}.

Definition with_currentFrame (f : Z) (m : Machine) : Machine :=
  {| currentFrame := f; frameTimer := frameTimer m;
     playingAnimation := playingAnimation m; videoBuffer := videoBuffer m |}.

Definition with_playingAnimation (p : bool) (m : Machine) : Machine :=
  {| currentFrame := currentFrame m; frameTimer := frameTimer m;
     playingAnimation := p; videoBuffer := videoBuffer m |}.

(** ** Memory accesses and loops

    An access outside an array has no defined behaviour in C: it is a
    failure ([None]) of the option monad the code runs in. *)

(** [buf[pos] = v]. *)
Definition write (buf : list Z) (pos : nat) (v : Z) : option (list Z) :=
  if decide (pos < length buf)%nat then Some (<[pos := v]> buf) else None.

(** [for (int i = lo; i < lo + n; i++) body]. *)
Fixpoint for_loop {St : Type} (body : nat → St → option St)
    (lo n : nat) (s : St) : option St :=
  match n with
  | O => Some s
  | S n' => s' ← body lo s; for_loop body (S lo) n' s'
  end.

(** The number of pixels of the mode 3 screen, [240 * 160]. *)
Definition screen_size : nat := (240 * 160)%nat.

(** main.c, lines 45-47: clear the screen to black. *)
Definition clear_screen (buf : list Z) : option (list Z) :=
  for_loop (λ i buf, write buf i (U16.wrap BLACK)) 0 screen_size buf.

(** main.c, lines 67-78: the colour bars. *)
Definition bar_pixel (x : nat) : Z :=
  if (x <? 80)%nat then U16.wrap RED
  else if (x <? 160)%nat then U16.wrap GREEN
  else U16.wrap BLUE.

Definition draw_color_bars (buf : list Z) : option (list Z) :=
  for_loop (λ y buf,
    for_loop (λ x buf,
      let pos := (y * 240 + x)%nat in
      write buf pos (bar_pixel x)) 0 240 buf) 0 160 buf.

(** main.c, lines 99-112. [frameData] points to [u16] pixels, which are
    copied as they are. *)
Definition drawFrame (a : Animation) (frameIndex : Z) (m : Machine)
    : option Machine :=
  if poisson_frame_count a <=? frameIndex then Some m
  else
    frameData ← poisson_frames a !! Z.to_nat frameIndex;
    buf ← for_loop (λ i buf, px ← frameData !! i; write buf i px)
            0 screen_size (videoBuffer m);
    Some (with_videoBuffer buf m).

(** main.c, lines 115-137. *)
Definition updateAnimation (a : Animation) (m : Machine) : option Machine :=
  if poisson_frame_count a <=? 1 then Some m
  else
    let m := with_frameTimer (U16.incr (frameTimer m)) m in
    d ← poisson_durations a !! Z.to_nat (currentFrame m);
    if d <=? frameTimer m then
      let m := with_frameTimer 0 m in
      let m := with_currentFrame (U16.incr (currentFrame m)) m in
      let m :=
        if poisson_frame_count a <=? currentFrame m
        then with_currentFrame 0 m else m in
      drawFrame a (currentFrame m) m
    else Some m.

(** main.c, lines 62-79: the A button. *)
Definition handle_A (keys : Z) (m : Machine) : option Machine :=
  if key_down keys KEY_A then
    let m := with_playingAnimation false m in
    buf ← draw_color_bars (videoBuffer m);
    Some (with_videoBuffer buf m)
  else Some m.

(** main.c, lines 81-87: the B button. *)
Definition handle_B (a : Animation) (keys : Z) (m : Machine)
    : option Machine :=
  if key_down keys KEY_B then
    let m := with_playingAnimation true m in
    let m := with_currentFrame 0 m in
    let m := with_frameTimer 0 m in
    drawFrame a (currentFrame m) m
  else Some m.

(** main.c, lines 53-93: one iteration of the main loop, for the value
    [keys] of [keysDown()] after the wait for the vertical blank. *)
Definition loop_body (a : Animation) (keys : Z) (m : Machine)
    : option Machine :=
  m ← handle_A keys m;
  m ← handle_B a keys m;
  if playingAnimation m then updateAnimation a m else Some m.

(** main.c, lines 27-29 and 43-50: the initial globals, the cleared
    screen and the first frame. [vram] is the frame buffer as found. *)
Definition main_start (a : Animation) (vram : list Z) : option Machine :=
  buf ← clear_screen vram;
  drawFrame a 0
    {| currentFrame := 0; frameTimer := 0; playingAnimation := true;
       videoBuffer := buf |}.

(** The loop never ends; its finite prefixes are run over the list of
    the successive values of [keysDown()]. *)
Fixpoint main_loop (a : Animation) (inputs : list Z) (m : Machine)
    : option Machine :=
  match inputs with
  | [] => Some m
  | keys :: inputs' => m' ← loop_body a keys m; main_loop a inputs' m'
  end.

Definition main (a : Animation) (vram : list Z) (inputs : list Z)
    : option Machine :=
  m ← main_start a vram; main_loop a inputs m.

(** [n] successive calls of [updateAnimation]. *)
Fixpoint ticks (a : Animation) (n : nat) (m : Machine) : option Machine :=
  match n with
  | O => Some m
  | S n' => m' ← updateAnimation a m; ticks a n' m'
  end.

(** ** Well-formed data

    The animation tables have [poisson_frame_count] entries and every
    frame has the size of the screen; the frame buffer has the size of
    the screen. *)

Record wf_animation (a : Animation) : Prop := {
  wf_durations : length (poisson_durations a) = Z.to_nat (poisson_frame_count a);
  wf_frames : length (poisson_frames a) = Z.to_nat (poisson_frame_count a);
  wf_pixels : Forall (λ f, length f = screen_size) (poisson_frames a)
}.

Definition wf_screen (m : Machine) : Prop :=
  length (videoBuffer m) = screen_size.

(** The invariant of the playback state. *)
Definition frame_in_range (a : Animation) (m : Machine) : Prop :=
  0 <= currentFrame m < poisson_frame_count a.

(** No button of the two is newly pressed. *)
Definition idle (keys : Z) : Prop :=
  key_down keys KEY_A = false ∧ key_down keys KEY_B = false.

(** ** Derived operations *)

(** The frame [updateAnimation] moves to from frame [cf]. *)
Definition next_frame (a : Animation) (cf : Z) : Z :=
  if poisson_frame_count a <=? U16.incr cf then 0 else U16.incr cf.

(** The first frame drawn by the B button and the update that follows
    it in the same iteration, from a buffer [buf]. *)
Definition restart (a : Animation) (buf : list Z) : option Machine :=
  m ← drawFrame a 0
        {| currentFrame := 0; frameTimer := 0; playingAnimation := true;
           videoBuffer := buf |};
  updateAnimation a m.

(** ** Predicates on the screen and on the keys *)

(** The pixels written so far by the colour-bar loops, when the outer
    loop is at row [y] and the inner one at column [x]. *)
Definition bars_done (y x : nat) (b : list Z) : Prop :=
  length b = screen_size ∧
  ∀ y' x', (x' < 240)%nat → (y' < y ∨ (y' = y ∧ x' < x))%nat →
    b !! (y' * 240 + x')%nat = Some (bar_pixel x').

(** The frame buffer holds the three colour bars: in each of the 160
    rows, pure red (31) in the columns 0 to 79, pure green (992) in the
    columns 80 to 159 and pure blue (31744) in the columns 160 to 239. *)
Definition shows_bars (buf : list Z) : Prop :=
  length buf = screen_size ∧
  ∀ x y, (y < 160)%nat →
    ((x < 80)%nat → buf !! (y * 240 + x)%nat = Some 31) ∧
    ((80 ≤ x < 160)%nat → buf !! (y * 240 + x)%nat = Some 992) ∧
    ((160 ≤ x < 240)%nat → buf !! (y * 240 + x)%nat = Some 31744).

(** The A button is newly pressed and the B button is not. *)
Definition toggle_only (keys : Z) : Prop :=
  key_down keys KEY_A = true ∧ key_down keys KEY_B = false.

(** The B button is not newly pressed. *)
Definition no_resume (keys : Z) : Prop := key_down keys KEY_B = false.

(** ** Sample data *)

(** A frame of one colour. *)
Definition plain_frame (c : Z) : list Z := replicate screen_size c.

(** Three frames shown for 2, 3 and 1 ticks. *)
Definition three_frames : Animation :=
  {| poisson_frame_count := 3;
     poisson_durations := [2; 3; 1];
     poisson_frames := [plain_frame RED; plain_frame GREEN; plain_frame BLUE] |}.

(** Two frames, the first of them shown for one tick. *)
Definition quick_first : Animation :=
  {| poisson_frame_count := 2;
     poisson_durations := [1; 4];
     poisson_frames := [plain_frame RED; plain_frame GREEN] |}.

(** Two frames, the first of them with a duration that a 16-bit timer
    does not reach. *)
Definition long_hold : Animation :=
  {| poisson_frame_count := 2;
     poisson_durations := [65536; 1];
     poisson_frames := [plain_frame RED; plain_frame GREEN] |}.

(** No frame at all. *)
Definition no_frames : Animation :=
  {| poisson_frame_count := 0; poisson_durations := [];
     poisson_frames := [] |}.

(** The state in which the main loop is entered when frame 0 is
    [plain_frame RED]. *)
Definition playing_first : Machine :=
  {| currentFrame := 0; frameTimer := 0; playingAnimation := true;
     videoBuffer := plain_frame RED |}.

(** The start of the second frame. *)
Definition playing_second : Machine :=
  {| currentFrame := 1; frameTimer := 0; playingAnimation := true;
     videoBuffer := plain_frame GREEN |}.

(** A paused state, in the middle of the second frame. *)
Definition paused_second : Machine :=
  {| currentFrame := 1; frameTimer := 2; playingAnimation := false;
     videoBuffer := plain_frame GREEN |}.

(** ** Properties of the reachable states *)

(** The screen agrees with the mode: the current frame while the
    animation plays, the colour bars while it is paused. *)
Definition screen_consistent (a : Animation) (m : Machine) : Prop :=
  if playingAnimation m
  then poisson_frames a !! Z.to_nat (currentFrame m) = Some (videoBuffer m)
  else shows_bars (videoBuffer m).

(** The timer has not reached the duration of the current frame. *)
Definition timer_below_duration (a : Animation) (m : Machine) : Prop :=
  ∃ d, poisson_durations a !! Z.to_nat (currentFrame m) = Some d ∧
    0 <= frameTimer m < d.

(** Every duration is at least one tick. *)
Definition positive_durations (a : Animation) : Prop :=
  Forall (λ d, 1 <= d) (poisson_durations a).

(** What the states reached by [main] satisfy. *)
Definition playback_invariant (a : Animation) (m : Machine) : Prop :=
  wf_screen m ∧ frame_in_range a m ∧ screen_consistent a m ∧
  (positive_durations a → timer_below_duration a m).

(** The number of ticks of one pass over all the frames. *)
Definition cycle_ticks (a : Animation) : nat :=
  sum_list_with Z.to_nat (poisson_durations a).

(** The animation [a] with other tables. *)
Definition with_durations (ds : list Z) (a : Animation) : Animation :=
  {| poisson_frame_count := poisson_frame_count a;
     poisson_durations := ds; poisson_frames := poisson_frames a |}.

Definition with_tables (ds : list Z) (fs : list (list Z)) (a : Animation)
    : Animation :=
  {| poisson_frame_count := poisson_frame_count a;
     poisson_durations := ds; poisson_frames := fs |}.

(** One frame only. *)
Definition one_frame : Animation :=
  {| poisson_frame_count := 1; poisson_durations := [5];
     poisson_frames := [plain_frame WHITE] |}.


(** * Proofs *)

(** Reading a global of an updated state. *)
Ltac globals :=
  unfold with_videoBuffer, with_frameTimer, with_currentFrame,
    with_playingAnimation;
  cbn [currentFrame frameTimer playingAnimation videoBuffer].

(** The side conditions of one call of [updateAnimation] on concrete
    globals. *)
Ltac scenario_step :=
  first [ assumption | reflexivity | globals; simpl; lia
        | vm_compute; congruence ].

(** ** Small runs *)

Example incr_wraps : U16.incr 65534 = 65535 ∧ U16.incr 65535 = 0.
Proof. split; reflexivity. Qed.

Example colours :
  (BLACK, RED, GREEN, BLUE, WHITE) = (0, 31, 992, 31744, 32767).
Proof. reflexivity. Qed.

Example keys_sampled :
  key_down 0 KEY_A = false ∧ key_down KEY_A KEY_A = true ∧
  key_down KEY_A KEY_B = false ∧ key_down 3 KEY_A = true ∧
  key_down 3 KEY_B = true ∧ key_down 256 KEY_B = false.
Proof. repeat split. Qed.

Example loop_in_bounds :
  for_loop (λ i buf, write buf i (Z.of_nat i + 7)) 1 3 [0; 0; 0; 0; 0]
  = Some [0; 8; 9; 10; 0].
Proof. reflexivity. Qed.

Example loop_out_of_bounds :
  for_loop (λ i buf, write buf i 7) 0 3 [0; 0] = None.
Proof. reflexivity. Qed.

Example next_frame_wraps :
  next_frame three_frames 0 = 1 ∧ next_frame three_frames 1 = 2 ∧
  next_frame three_frames 2 = 0.
Proof. repeat split. Qed.

(** ** Loops and memory *)

Lemma write_Some (buf : list Z) (pos : nat) (v : Z) :
  (pos < length buf)%nat → write buf pos v = Some (<[pos := v]> buf).
Proof. intros Hlt. unfold write. by rewrite decide_True. Qed.

(** The loop rule: an invariant [P j s] of the state before iteration
    [j] that every iteration re-establishes holds at the exit, and the
    loop does not fail. *)
Lemma for_loop_invariant {St : Type} (P : nat → St → Prop)
    (body : nat → St → option St) (n lo : nat) (s : St) :
  P lo s →
  (∀ j t, (lo ≤ j < lo + n)%nat → P j t →
     ∃ t', body j t = Some t' ∧ P (S j) t') →
  ∃ s', for_loop body lo n s = Some s' ∧ P (lo + n)%nat s'.
Proof.
  revert lo s. induction n as [|n IH]; intros lo s Hinit Hstep.
  - exists s. split; [done|]. by rewrite Nat.add_0_r.
  - destruct (Hstep lo s ltac:(lia) Hinit) as (t & Hbody & Ht).
    destruct (IH (S lo) t Ht) as (s' & Hloop & Hs').
    { intros j u Hj. apply Hstep. lia. }
    exists s'. split.
    + cbn [for_loop]. rewrite Hbody. exact Hloop.
    + by replace (lo + S n)%nat with (S lo + n)%nat by lia.
Qed.

(** The copy loop of [drawFrame] leaves exactly the frame in the buffer. *)
Lemma copy_loop_frame (frameData buf : list Z) :
  length frameData = screen_size → length buf = screen_size →
  for_loop (λ i buf, px ← frameData !! i; write buf i px) 0 screen_size buf
  = Some frameData.
Proof.
  intros Hf Hb.
  destruct (for_loop_invariant
    (λ j (b : list Z), length b = screen_size ∧
       ∀ k, (k < j)%nat → b !! k = frameData !! k)
    (λ i buf, px ← frameData !! i; write buf i px)
    screen_size 0%nat buf) as (b & Hrun & Hlen & Hpix).
  - split; [done|]. intros k Hk. lia.
  - intros j t Hj [Ht Hcopied].
    destruct (lookup_lt_is_Some_2 frameData j) as [px Hpx]; [lia|].
    exists (<[j := px]> t). rewrite Hpx. cbn [mbind option_bind].
    rewrite write_Some by lia. split; [done|].
    split; [by rewrite length_insert|].
    intros k Hk. destruct (decide (k = j)) as [->|Hne].
    + rewrite list_lookup_insert_eq by lia. done.
    + rewrite list_lookup_insert_ne by done. apply Hcopied. lia.
  - rewrite Hrun. f_equal. apply list_eq. intros k.
    destruct (decide (k < screen_size)%nat) as [Hk|Hk].
    + apply Hpix. lia.
    + rewrite !lookup_ge_None_2 by lia. done.
Qed.

(** The clearing loop of [main] succeeds and keeps the size of the
    buffer. *)
Lemma clear_screen_Some (buf : list Z) :
  length buf = screen_size →
  ∃ buf', clear_screen buf = Some buf' ∧ length buf' = screen_size.
Proof.
  intros Hb. unfold clear_screen.
  destruct (for_loop_invariant (λ _ (b : list Z), length b = screen_size)
    (λ i buf, write buf i (U16.wrap BLACK)) screen_size 0%nat buf)
    as (b & Hrun & Hlen); [done| |by exists b].
  intros j t Hj Ht. exists (<[j := U16.wrap BLACK]> t).
  rewrite write_Some by lia. by rewrite length_insert.
Qed.

Lemma bars_row (y : nat) (b : list Z) :
  (y < 160)%nat → bars_done y 0 b →
  ∃ b', for_loop (λ x buf, write buf (y * 240 + x)%nat (bar_pixel x))
          0 240 b = Some b' ∧ bars_done (S y) 0 b'.
Proof.
  intros Hy Hb.
  destruct (for_loop_invariant (bars_done y)
    (λ x buf, write buf (y * 240 + x)%nat (bar_pixel x)) 240 0%nat b)
    as (b' & Hrun & Hlen & Hpix); [done| |].
  - intros x t Hx [Ht Hdone]. unfold screen_size in Ht.
    exists (<[(y * 240 + x)%nat := bar_pixel x]> t).
    rewrite write_Some by lia. split; [done|].
    split; [by rewrite length_insert|].
    intros y' x' Hx' Hbefore.
    destruct (decide (y' = y ∧ x' = x)) as [[-> ->]|Hne].
    + rewrite list_lookup_insert_eq by lia. done.
    + rewrite list_lookup_insert_ne by lia. apply Hdone; lia.
  - exists b'. split; [done|]. split; [done|].
    intros y' x' Hx' Hbefore. apply Hpix; lia.
Qed.

(** The colour-bar loops succeed on a buffer of the size of the screen
    and leave [bar_pixel x] at every pixel of column [x]. *)
Lemma draw_color_bars_pixels (buf : list Z) :
  length buf = screen_size →
  ∃ buf', draw_color_bars buf = Some buf' ∧ length buf' = screen_size ∧
    ∀ x y, (x < 240)%nat → (y < 160)%nat →
      buf' !! (y * 240 + x)%nat = Some (bar_pixel x).
Proof.
  intros Hb. unfold draw_color_bars.
  destruct (for_loop_invariant (λ y b, bars_done y 0 b)
    (λ y buf, for_loop (λ x buf, write buf (y * 240 + x)%nat (bar_pixel x))
                0 240 buf) 160 0%nat buf)
    as (b' & Hrun & Hlen & Hpix).
  - split; [done|]. intros y' x' _ Hbefore. lia.
  - intros y t Hy Ht. apply bars_row; [lia|done].
  - exists b'. split; [done|]. split; [done|].
    intros x y Hx Hy. apply Hpix; lia.
Qed.

(** The buffer the colour-bar loops leave does not depend on the one
    they start from. *)
Lemma draw_color_bars_fixed (buf1 buf2 b1 b2 : list Z) :
  length buf1 = screen_size → length buf2 = screen_size →
  draw_color_bars buf1 = Some b1 → draw_color_bars buf2 = Some b2 →
  b1 = b2.
Proof.
  intros H1 H2 Hb1 Hb2.
  destruct (draw_color_bars_pixels buf1 H1) as (c1 & Hc1 & Hl1 & Hp1).
  destruct (draw_color_bars_pixels buf2 H2) as (c2 & Hc2 & Hl2 & Hp2).
  simplify_eq. apply list_eq. intros k.
  destruct (decide (k < screen_size)%nat) as [Hk|Hk].
  - unfold screen_size in Hk.
    assert (k = ((k / 240) * 240 + k mod 240)%nat) as Hdecomp.
    { pose proof (Nat.div_mod_eq k 240). lia. }
    assert (k mod 240 < 240)%nat by (apply Nat.mod_upper_bound; lia).
    assert (k / 240 < 160)%nat by (apply Nat.Div0.div_lt_upper_bound; lia).
    rewrite Hdecomp, Hp1, Hp2 by done. done.
  - rewrite !lookup_ge_None_2 by lia. done.
Qed.

(** The colours that the tests of the inner loop select. *)
Lemma bar_pixel_bands (x : nat) :
  ((x < 80)%nat → bar_pixel x = 31) ∧
  ((80 ≤ x < 160)%nat → bar_pixel x = 992) ∧
  ((160 ≤ x)%nat → bar_pixel x = 31744).
Proof.
  unfold bar_pixel.
  destruct (Nat.ltb_spec x 80); destruct (Nat.ltb_spec x 160);
    repeat split; intros Hx; first [lia | reflexivity].
Qed.

(** The three bars are what the loops write, pixel by pixel. *)
Lemma shows_bars_pixels (buf : list Z) :
  shows_bars buf ↔
  length buf = screen_size ∧
  ∀ x y, (x < 240)%nat → (y < 160)%nat →
    buf !! (y * 240 + x)%nat = Some (bar_pixel x).
Proof.
  split; intros [Hlen Hpix]; (split; [exact Hlen|]).
  - intros x y Hx Hy.
    destruct (Hpix x y Hy) as (Hred & Hgreen & Hblue).
    destruct (bar_pixel_bands x) as (Hr & Hg & Hb).
    destruct (decide (x < 80)%nat); [by rewrite Hr, Hred|].
    destruct (decide (x < 160)%nat);
      [by rewrite Hg, Hgreen by lia|by rewrite Hb, Hblue by lia].
  - intros x y Hy.
    destruct (bar_pixel_bands x) as (Hr & Hg & Hb).
    split; [|split]; intros Hx.
    + by rewrite Hpix, Hr by lia.
    + by rewrite Hpix, Hg by lia.
    + by rewrite Hpix, Hb by lia.
Qed.

Lemma draw_color_bars_shows (buf : list Z) :
  length buf = screen_size →
  ∃ bars, draw_color_bars buf = Some bars ∧ shows_bars bars.
Proof.
  intros Hb. destruct (draw_color_bars_pixels buf Hb) as (bars & Hrun & Hpix).
  exists bars. split; [exact Hrun|]. by apply shows_bars_pixels.
Qed.

Lemma draw_color_bars_again (bars : list Z) :
  shows_bars bars → draw_color_bars bars = Some bars.
Proof.
  intros Hshown. apply shows_bars_pixels in Hshown as [Hlen Hpix].
  destruct (draw_color_bars_pixels bars Hlen) as (b1 & Hb1 & _).
  destruct (clear_screen_Some bars Hlen) as (blank & _ & Hblank).
  destruct (draw_color_bars_pixels blank Hblank) as (b2 & Hb2 & Hl2 & Hp2).
  rewrite Hb1. f_equal.
  rewrite (draw_color_bars_fixed bars blank b1 b2) by done.
  apply list_eq. intros k.
  destruct (decide (k < screen_size)%nat) as [Hk|Hk].
  - unfold screen_size in Hk.
    assert (k = ((k / 240) * 240 + k mod 240)%nat) as Hdecomp.
    { pose proof (Nat.div_mod_eq k 240). lia. }
    assert (k mod 240 < 240)%nat by (apply Nat.mod_upper_bound; lia).
    assert (k / 240 < 160)%nat by (apply Nat.Div0.div_lt_upper_bound; lia).
    rewrite Hdecomp, Hp2, Hpix by done. done.
  - rewrite !lookup_ge_None_2 by lia. done.
Qed.

(** ** [drawFrame] *)

Lemma wf_frame_lookup (a : Animation) (idx : Z) :
  wf_animation a → 0 <= idx < poisson_frame_count a →
  ∃ f, poisson_frames a !! Z.to_nat idx = Some f ∧ length f = screen_size.
Proof.
  intros [_ Hfr Hpx] Hidx.
  destruct (lookup_lt_is_Some_2 (poisson_frames a) (Z.to_nat idx)) as [f Hf];
    [lia|].
  exists f. split; [done|].
  by apply (Forall_lookup_1 _ _ _ _ Hpx Hf).
Qed.

Lemma wf_duration_lookup (a : Animation) (idx : Z) :
  wf_animation a → 0 <= idx < poisson_frame_count a →
  ∃ d, poisson_durations a !! Z.to_nat idx = Some d.
Proof.
  intros [Hd _ _] Hidx. apply lookup_lt_is_Some_2. lia.
Qed.

Lemma drawFrame_out_of_range (a : Animation) (idx : Z) (m : Machine) :
  poisson_frame_count a <= idx → drawFrame a idx m = Some m.
Proof.
  intros Hge. unfold drawFrame.
  destruct (Z.leb_spec (poisson_frame_count a) idx); [done|lia].
Qed.

Lemma drawFrame_in_range (a : Animation) (idx : Z) (m : Machine)
    (f : list Z) :
  idx < poisson_frame_count a →
  poisson_frames a !! Z.to_nat idx = Some f →
  length f = screen_size → wf_screen m →
  drawFrame a idx m = Some (with_videoBuffer f m).
Proof.
  intros Hlt Hf Hlen Hm. unfold drawFrame.
  destruct (Z.leb_spec (poisson_frame_count a) idx); [lia|].
  rewrite Hf. cbn [mbind option_bind].
  by rewrite (copy_loop_frame f (videoBuffer m) Hlen Hm).
Qed.

(** [drawFrame] writes to the frame buffer only. *)
Lemma drawFrame_globals (a : Animation) (idx : Z) (m m' : Machine) :
  drawFrame a idx m = Some m' → ∃ buf, m' = with_videoBuffer buf m.
Proof.
  unfold drawFrame. intros Hdraw.
  destruct (poisson_frame_count a <=? idx).
  - exists (videoBuffer m). destruct m. by simplify_eq.
  - destruct (poisson_frames a !! Z.to_nat idx) as [f|]; [|done].
    cbn [mbind option_bind] in Hdraw.
    destruct (for_loop _ 0 screen_size (videoBuffer m)) as [buf|]; [|done].
    exists buf. cbn [mbind option_bind] in Hdraw. by simplify_eq.
Qed.

(** ** [updateAnimation] *)

Lemma next_frame_mod (a : Animation) (cf : Z) :
  0 <= cf < poisson_frame_count a →
  poisson_frame_count a <= U16.modulus ∨ cf + 1 < U16.modulus →
  next_frame a cf = (cf + 1) mod poisson_frame_count a.
Proof.
  unfold next_frame, U16.incr, U16.wrap, U16.modulus. intros Hcf Hfc.
  destruct (decide (cf + 1 = 65536)) as [Heq|Hne].
  - assert (poisson_frame_count a = 65536) as -> by lia.
    rewrite Heq. done.
  - rewrite (Z.mod_small (cf + 1) 65536) by lia.
    destruct (Z.leb_spec (poisson_frame_count a) (cf + 1)).
    + replace (cf + 1) with (poisson_frame_count a) by lia.
      by rewrite Z.mod_same by lia.
    + by rewrite Z.mod_small by lia.
Qed.

Lemma next_frame_in_range (a : Animation) (cf : Z) :
  1 <= poisson_frame_count a →
  0 <= next_frame a cf < poisson_frame_count a.
Proof.
  unfold next_frame, U16.incr, U16.wrap, U16.modulus. intros Hfc.
  pose proof (Z.mod_pos_bound (cf + 1) 65536 ltac:(lia)).
  destruct (Z.leb_spec (poisson_frame_count a) ((cf + 1) mod 65536)); lia.
Qed.

Lemma updateAnimation_single (a : Animation) (m : Machine) :
  poisson_frame_count a <= 1 → updateAnimation a m = Some m.
Proof.
  intros Hfc. unfold updateAnimation.
  destruct (Z.leb_spec (poisson_frame_count a) 1); [done|lia].
Qed.

Lemma updateAnimation_hold (a : Animation) (m : Machine) (d : Z) :
  2 <= poisson_frame_count a →
  poisson_durations a !! Z.to_nat (currentFrame m) = Some d →
  U16.incr (frameTimer m) < d →
  updateAnimation a m = Some (with_frameTimer (U16.incr (frameTimer m)) m).
Proof.
  intros Hfc Hd Hlt. unfold updateAnimation.
  destruct (Z.leb_spec (poisson_frame_count a) 1); [lia|].
  cbn [currentFrame frameTimer with_frameTimer]. rewrite Hd.
  cbn [mbind option_bind].
  destruct (Z.leb_spec d (U16.incr (frameTimer m))); [lia|done].
Qed.

Lemma updateAnimation_advance (a : Animation) (m : Machine) (d : Z) :
  2 <= poisson_frame_count a →
  poisson_durations a !! Z.to_nat (currentFrame m) = Some d →
  d <= U16.incr (frameTimer m) →
  updateAnimation a m =
  drawFrame a (next_frame a (currentFrame m))
    {| currentFrame := next_frame a (currentFrame m); frameTimer := 0;
       playingAnimation := playingAnimation m;
       videoBuffer := videoBuffer m |}.
Proof.
  intros Hfc Hd Hge. unfold updateAnimation, next_frame.
  destruct (Z.leb_spec (poisson_frame_count a) 1); [lia|].
  cbn [currentFrame frameTimer with_frameTimer with_currentFrame]. rewrite Hd.
  cbn [mbind option_bind].
  destruct (Z.leb_spec d (U16.incr (frameTimer m))); [|lia].
  by destruct (Z.leb_spec (poisson_frame_count a)
                 (U16.incr (currentFrame m))).
Qed.

(** The advancing call of [updateAnimation], with the frame it draws. *)
Lemma updateAnimation_next (a : Animation) (m : Machine) (d n : Z)
    (f : list Z) :
  2 <= poisson_frame_count a →
  poisson_durations a !! Z.to_nat (currentFrame m) = Some d →
  d <= U16.incr (frameTimer m) →
  next_frame a (currentFrame m) = n → n < poisson_frame_count a →
  poisson_frames a !! Z.to_nat n = Some f → length f = screen_size →
  wf_screen m →
  updateAnimation a m =
  Some {| currentFrame := n; frameTimer := 0;
          playingAnimation := playingAnimation m; videoBuffer := f |}.
Proof.
  intros Hfc Hd Hge Hnext Hn Hf Hlen Hm.
  rewrite (updateAnimation_advance a m d), Hnext by done.
  by rewrite (drawFrame_in_range a n _ f).
Qed.

(** [updateAnimation] does not fail on well-formed data and keeps the
    frame index in range, the mode and the size of the buffer. *)
Lemma updateAnimation_Some (a : Animation) (m : Machine) :
  wf_animation a → wf_screen m →
  (2 <= poisson_frame_count a → frame_in_range a m) →
  ∃ m', updateAnimation a m = Some m' ∧ wf_screen m' ∧
    playingAnimation m' = playingAnimation m ∧
    (frame_in_range a m → frame_in_range a m').
Proof.
  intros Hwf Hm Hin.
  destruct (Z.le_gt_cases (poisson_frame_count a) 1) as [Hfc|Hfc].
  { exists m. by rewrite updateAnimation_single. }
  destruct (wf_duration_lookup a (currentFrame m) Hwf) as [d Hd];
    [apply Hin; lia|].
  destruct (Z.le_gt_cases d (U16.incr (frameTimer m))) as [Hge|Hlt].
  - rewrite (updateAnimation_advance a m d) by (done || lia).
    pose proof (next_frame_in_range a (currentFrame m) ltac:(lia)) as Hnext.
    destruct (wf_frame_lookup a _ Hwf Hnext) as (f & Hf & Hlen).
    rewrite (drawFrame_in_range a _ _ f) by (done || lia).
    eexists. split; [done|]. split; [exact Hlen|]. split; [done|].
    intros _. exact Hnext.
  - rewrite (updateAnimation_hold a m d) by (done || lia).
    eexists. split; [done|]. split; [exact Hm|]. split; [done|].
    intros Hr. exact Hr.
Qed.

Lemma updateAnimation_mode (a : Animation) (m m' : Machine) :
  updateAnimation a m = Some m' →
  playingAnimation m' = playingAnimation m.
Proof.
  unfold updateAnimation. intros Hupd.
  destruct (poisson_frame_count a <=? 1); [by simplify_eq|].
  cbn [currentFrame frameTimer with_frameTimer with_currentFrame] in Hupd.
  destruct (poisson_durations a !! Z.to_nat (currentFrame m)) as [d|];
    [|done].
  cbn [mbind option_bind] in Hupd.
  destruct (d <=? U16.incr (frameTimer m)); [|by simplify_eq].
  destruct (poisson_frame_count a <=? U16.incr (currentFrame m));
    apply drawFrame_globals in Hupd as [buf ->]; done.
Qed.

(** ** Runs of [updateAnimation] *)

Lemma ticks_S (a : Animation) (n : nat) (m : Machine) :
  ticks a (S n) m = m' ← updateAnimation a m; ticks a n m'.
Proof. reflexivity. Qed.

Lemma ticks_snoc (a : Animation) (n : nat) (m : Machine) :
  ticks a (S n) m = m' ← ticks a n m; updateAnimation a m'.
Proof.
  revert m. induction n as [|n IH]; intros m.
  - cbn [ticks mbind option_bind]. by destruct (updateAnimation a m).
  - rewrite (ticks_S a (S n) m), (ticks_S a n m).
    destruct (updateAnimation a m) as [m1|]; [|done].
    cbn [mbind option_bind]. apply IH.
Qed.

(** While the timer is below the duration of the current frame (and
    below the wrap-around of the 16-bit timer) only the timer moves. *)
Lemma ticks_hold (a : Animation) (m : Machine) (d : Z) (k : nat) :
  2 <= poisson_frame_count a →
  poisson_durations a !! Z.to_nat (currentFrame m) = Some d →
  frameTimer m = 0 →
  Z.of_nat k < d → Z.of_nat k < U16.modulus →
  ticks a k m = Some (with_frameTimer (Z.of_nat k) m).
Proof.
  intros Hfc Hd Ht. unfold U16.modulus.
  induction k as [|k IH]; intros Hk Hwrap.
  - destruct m. cbn in Ht. by subst.
  - rewrite ticks_snoc, IH by lia. cbn [mbind option_bind].
    assert (U16.incr (Z.of_nat k) = Z.of_nat (S k)) as Hincr.
    { unfold U16.incr, U16.wrap, U16.modulus. rewrite Z.mod_small; lia. }
    rewrite (updateAnimation_hold a _ d); cbn [frameTimer with_frameTimer];
      rewrite ?Hincr; try done; lia.
Qed.

(** The tick that reaches the duration moves to the next frame, resets
    the timer and draws the frame. *)
Lemma ticks_advance (a : Animation) (m : Machine) (d : Z) :
  wf_animation a → wf_screen m →
  2 <= poisson_frame_count a → frame_in_range a m →
  poisson_durations a !! Z.to_nat (currentFrame m) = Some d →
  1 <= d < U16.modulus → frameTimer m = 0 →
  ∃ f, poisson_frames a !! Z.to_nat (next_frame a (currentFrame m)) = Some f ∧
    ticks a (Z.to_nat d) m =
    Some {| currentFrame := next_frame a (currentFrame m); frameTimer := 0;
            playingAnimation := playingAnimation m; videoBuffer := f |}.
Proof.
  intros Hwf Hm Hfc Hin Hd Hrange Ht. unfold U16.modulus in Hrange.
  pose proof (next_frame_in_range a (currentFrame m) ltac:(lia)) as Hnext.
  destruct (wf_frame_lookup a _ Hwf Hnext) as (f & Hf & Hlen).
  exists f. split; [done|].
  replace (Z.to_nat d) with (S (Z.to_nat (d - 1))) by lia.
  rewrite ticks_snoc, (ticks_hold a m d) by (done || unfold U16.modulus; lia).
  cbn [mbind option_bind].
  rewrite (updateAnimation_advance a _ d); cbn [frameTimer currentFrame
    playingAnimation videoBuffer with_frameTimer]; [|lia|done|].
  - by rewrite (drawFrame_in_range a _ _ f) by (done || lia).
  - unfold U16.incr, U16.wrap, U16.modulus. rewrite Z.mod_small; lia.
Qed.

(** ** The main loop and the buttons *)

Lemma loop_body_idle (a : Animation) (keys : Z) (m : Machine) :
  idle keys →
  loop_body a keys m =
  if playingAnimation m then updateAnimation a m else Some m.
Proof.
  intros [HA HB]. unfold loop_body, handle_A, handle_B.
  by rewrite HA, HB.
Qed.

(** In Playing mode, iterations without a button are calls of
    [updateAnimation]. *)
Lemma main_loop_idle_playing (a : Animation) (inputs : list Z)
    (m : Machine) :
  Forall idle inputs → playingAnimation m = true →
  main_loop a inputs m = ticks a (length inputs) m.
Proof.
  intros Hidle. revert m.
  induction Hidle as [|keys inputs Hkeys _ IH]; intros m Hplay; [done|].
  cbn [main_loop ticks length]. rewrite loop_body_idle, Hplay by done.
  destruct (updateAnimation a m) as [m'|] eqn:Hupd; [|done].
  cbn [mbind option_bind]. apply IH.
  by rewrite (updateAnimation_mode a m m').
Qed.

Lemma handle_A_pressed (keys : Z) (m : Machine) :
  key_down keys KEY_A = true → wf_screen m →
  ∃ bars, shows_bars bars ∧
    handle_A keys m =
    Some {| currentFrame := currentFrame m; frameTimer := frameTimer m;
            playingAnimation := false; videoBuffer := bars |}.
Proof.
  intros HA Hm. unfold handle_A. rewrite HA.
  destruct (draw_color_bars_shows (videoBuffer m) Hm) as (bars & Hrun & Hbars).
  exists bars. split; [done|].
  cbn [videoBuffer with_playingAnimation]. by rewrite Hrun.
Qed.

(** An iteration without the B button, A pressed: the bars, the mode,
    nothing else. *)
Lemma loop_body_toggle (a : Animation) (keys : Z) (m : Machine) :
  toggle_only keys → wf_screen m →
  ∃ bars, shows_bars bars ∧
    loop_body a keys m =
    Some {| currentFrame := currentFrame m; frameTimer := frameTimer m;
            playingAnimation := false; videoBuffer := bars |}.
Proof.
  intros [HA HB] Hm.
  destruct (handle_A_pressed keys m HA Hm) as (bars & Hbars & Hrun).
  exists bars. split; [done|].
  unfold loop_body. rewrite Hrun. cbn [mbind option_bind].
  unfold handle_B. by rewrite HB.
Qed.

(** While paused, an iteration without the B button changes no global;
    the buffer changes only if it does not show the bars yet. *)
Lemma loop_body_paused (a : Animation) (keys : Z) (m : Machine) :
  no_resume keys → wf_screen m → playingAnimation m = false →
  ∃ buf, loop_body a keys m = Some (with_videoBuffer buf m) ∧
    length buf = screen_size ∧
    (idle keys → buf = videoBuffer m) ∧
    (shows_bars (videoBuffer m) → buf = videoBuffer m).
Proof.
  intros HB Hm Hpause. unfold no_resume in HB.
  destruct (key_down keys KEY_A) eqn:HA.
  - destruct (loop_body_toggle a keys m (conj HA HB) Hm)
      as (bars & Hbars & Hrun).
    exists bars. rewrite Hrun. unfold with_videoBuffer. rewrite Hpause.
    split; [done|]. split; [apply Hbars|]. split.
    + intros [HA' _]. congruence.
    + intros Hshown. pose proof (draw_color_bars_again _ Hshown) as Hagain.
      unfold loop_body, handle_A in Hrun. rewrite HA in Hrun.
      cbn [videoBuffer with_playingAnimation] in Hrun.
      rewrite Hagain in Hrun. cbn [mbind option_bind] in Hrun.
      unfold handle_B in Hrun. rewrite HB in Hrun.
      cbn in Hrun. unfold with_videoBuffer in Hrun. congruence.
  - exists (videoBuffer m). unfold loop_body, handle_A, handle_B.
    rewrite HA, HB. cbn [mbind option_bind]. rewrite Hpause.
    split; [by destruct m|]. by split.
Qed.

(** While paused, iterations without the B button change no global and
    leave the colour bars on the screen. *)
Lemma main_loop_paused (a : Animation) (inputs : list Z) (m : Machine) :
  Forall no_resume inputs → playingAnimation m = false →
  shows_bars (videoBuffer m) →
  main_loop a inputs m = Some m.
Proof.
  intros Hkeys Hpause Hbars.
  induction Hkeys as [|keys inputs Hkey _ IH]; [done|].
  cbn [main_loop].
  destruct (loop_body_paused a keys m Hkey (proj1 Hbars) Hpause)
    as (buf & -> & _ & _ & Hsame).
  rewrite (Hsame Hbars). cbn [mbind option_bind].
  replace (with_videoBuffer (videoBuffer m) m) with m by (by destruct m).
  exact IH.
Qed.

(** An iteration with the B button: whatever the A button did to the
    globals is overwritten, the first frame is drawn, and the animation
    is updated in the same iteration. *)
Lemma loop_body_resume (a : Animation) (keys : Z) (m : Machine) :
  key_down keys KEY_B = true →
  loop_body a keys m =
  m1 ← handle_A keys m;
  m2 ← drawFrame a 0
         {| currentFrame := 0; frameTimer := 0; playingAnimation := true;
            videoBuffer := videoBuffer m1 |};
  updateAnimation a m2.
Proof.
  intros HB. unfold loop_body.
  destruct (handle_A keys m) as [m1|]; [|done].
  cbn [mbind option_bind]. unfold handle_B. rewrite HB.
  cbn [currentFrame frameTimer videoBuffer playingAnimation
       with_playingAnimation with_currentFrame with_frameTimer].
  destruct (drawFrame a 0 _) as [m2|] eqn:Hdraw; [|done].
  cbn [mbind option_bind].
  apply drawFrame_globals in Hdraw as [buf ->]. done.
Qed.

(** An iteration with the B button and without the A button. *)
Lemma loop_body_resume_alone (a : Animation) (keys : Z) (m : Machine) :
  key_down keys KEY_A = false → key_down keys KEY_B = true →
  loop_body a keys m = restart a (videoBuffer m).
Proof.
  intros HA HB. rewrite loop_body_resume by done.
  unfold handle_A. by rewrite HA.
Qed.

(** An iteration with both buttons. *)
Lemma loop_body_both (a : Animation) (keys : Z) (m : Machine) :
  key_down keys KEY_A = true → key_down keys KEY_B = true → wf_screen m →
  ∃ bars, shows_bars bars ∧
    handle_A keys m =
    Some {| currentFrame := currentFrame m; frameTimer := frameTimer m;
            playingAnimation := false; videoBuffer := bars |} ∧
    loop_body a keys m = restart a bars.
Proof.
  intros HA HB Hm.
  destruct (handle_A_pressed keys m HA Hm) as (bars & Hbars & Hrun).
  exists bars. split; [done|]. split; [done|].
  rewrite loop_body_resume by done. by rewrite Hrun.
Qed.

Lemma restart_empty (a : Animation) (buf : list Z) :
  poisson_frame_count a <= 0 →
  restart a buf =
  Some {| currentFrame := 0; frameTimer := 0; playingAnimation := true;
          videoBuffer := buf |}.
Proof.
  intros Hfc. unfold restart.
  rewrite drawFrame_out_of_range by (cbn; lia). cbn [mbind option_bind].
  by rewrite updateAnimation_single by lia.
Qed.

Lemma restart_single (a : Animation) (buf : list Z) :
  wf_animation a → length buf = screen_size → poisson_frame_count a = 1 →
  ∃ f0, poisson_frames a !! 0%nat = Some f0 ∧
    restart a buf =
    Some {| currentFrame := 0; frameTimer := 0; playingAnimation := true;
            videoBuffer := f0 |}.
Proof.
  intros Hwf Hbuf Hfc.
  destruct (wf_frame_lookup a 0 Hwf ltac:(lia)) as (f0 & Hf0 & Hlen).
  exists f0. split; [done|]. unfold restart.
  rewrite (drawFrame_in_range a 0 _ f0) by (done || lia).
  cbn [mbind option_bind]. by rewrite updateAnimation_single by lia.
Qed.

Lemma restart_hold (a : Animation) (buf : list Z) (d : Z) :
  wf_animation a → length buf = screen_size → 2 <= poisson_frame_count a →
  poisson_durations a !! 0%nat = Some d → 2 <= d →
  ∃ f0, poisson_frames a !! 0%nat = Some f0 ∧
    restart a buf =
    Some {| currentFrame := 0; frameTimer := 1; playingAnimation := true;
            videoBuffer := f0 |}.
Proof.
  intros Hwf Hbuf Hfc Hd Hlong.
  destruct (wf_frame_lookup a 0 Hwf ltac:(lia)) as (f0 & Hf0 & Hlen).
  exists f0. split; [done|]. unfold restart.
  rewrite (drawFrame_in_range a 0 _ f0) by (done || lia).
  cbn [mbind option_bind].
  rewrite (updateAnimation_hold a _ d)
    by (globals; first [done | change (U16.incr 0) with 1; lia]).
  reflexivity.
Qed.

Lemma restart_advance (a : Animation) (buf : list Z) (d : Z) :
  wf_animation a → length buf = screen_size → 2 <= poisson_frame_count a →
  poisson_durations a !! 0%nat = Some d → d <= 1 →
  ∃ f1, poisson_frames a !! 1%nat = Some f1 ∧
    restart a buf =
    Some {| currentFrame := 1; frameTimer := 0; playingAnimation := true;
            videoBuffer := f1 |}.
Proof.
  intros Hwf Hbuf Hfc Hd Hshort.
  destruct (wf_frame_lookup a 0 Hwf ltac:(lia)) as (f0 & Hf0 & Hlen0).
  destruct (wf_frame_lookup a 1 Hwf ltac:(lia)) as (f1 & Hf1 & Hlen1).
  exists f1. split; [done|]. unfold restart.
  rewrite (drawFrame_in_range a 0 _ f0) by (done || lia).
  cbn [mbind option_bind].
  rewrite (updateAnimation_advance a _ d) by (globals; first [done | lia]).
  cbn [currentFrame playingAnimation videoBuffer with_videoBuffer].
  assert (next_frame a 0 = 1) as ->.
  { unfold next_frame. change (U16.incr 0) with 1.
    destruct (Z.leb_spec (poisson_frame_count a) 1); [lia|done]. }
  by rewrite (drawFrame_in_range a 1 _ f1) by (done || lia).
Qed.

(** Every iteration of the main loop succeeds on well-formed data and
    keeps the frame index in range. *)
Lemma loop_body_in_range (a : Animation) (keys : Z) (m : Machine) :
  wf_animation a → 1 <= poisson_frame_count a →
  wf_screen m → frame_in_range a m →
  ∃ m', loop_body a keys m = Some m' ∧ wf_screen m' ∧ frame_in_range a m'.
Proof.
  intros Hwf Hfc Hm Hin. unfold loop_body.
  assert (∃ m1, handle_A keys m = Some m1 ∧ wf_screen m1 ∧
                frame_in_range a m1) as (m1 & -> & Hm1 & Hin1).
  { destruct (key_down keys KEY_A) eqn:HA.
    - destruct (handle_A_pressed keys m HA Hm) as (bars & [Hlen _] & ->).
      eexists. split; [done|]. split; [exact Hlen|exact Hin].
    - unfold handle_A. rewrite HA. by exists m. }
  cbn [mbind option_bind].
  assert (∃ m2, handle_B a keys m1 = Some m2 ∧ wf_screen m2 ∧
                frame_in_range a m2) as (m2 & -> & Hm2 & Hin2).
  { unfold handle_B. destruct (key_down keys KEY_B).
    - destruct (wf_frame_lookup a 0 Hwf ltac:(lia)) as (f0 & Hf0 & Hlen).
      globals. rewrite (drawFrame_in_range a 0 _ f0) by (done || lia).
      eexists. split; [done|]. split; [exact Hlen|].
      unfold frame_in_range. globals. lia.
    - by exists m1. }
  cbn [mbind option_bind].
  destruct (playingAnimation m2); [|by exists m2].
  destruct (updateAnimation_Some a m2 Hwf Hm2 (λ _, Hin2))
    as (m' & -> & Hm' & _ & Hin').
  exists m'. auto.
Qed.

(** ** The sample data are well formed *)

Lemma plain_frame_length (c : Z) : length (plain_frame c) = screen_size.
Proof. apply length_replicate. Qed.

Lemma wf_three_frames : wf_animation three_frames.
Proof.
  split; [done|done|].
  repeat (apply Forall_cons_2; [apply plain_frame_length|]).
  apply Forall_nil_2.
Qed.

Lemma wf_quick_first : wf_animation quick_first.
Proof.
  split; [done|done|].
  repeat (apply Forall_cons_2; [apply plain_frame_length|]).
  apply Forall_nil_2.
Qed.

Lemma wf_long_hold : wf_animation long_hold.
Proof.
  split; [done|done|].
  repeat (apply Forall_cons_2; [apply plain_frame_length|]).
  apply Forall_nil_2.
Qed.

(** * The properties of the specification *)

(** C1 (amended): with two frames or more, from the start of a frame
    [i] whose duration [d] is between 1 and 65535, in Playing mode and
    without a button, each of the first [d - 1] ticks only counts (the
    index stays [i], nothing is drawn) and tick [d] moves to frame
    [(i + 1) mod poisson_frame_count], resets the timer and draws that
    frame; the frame index being a 16-bit counter as the timer is, this
    is for at most 65536 frames, or for [i] below 65535. *)
Theorem frame_advances_after_duration (a : Animation) (m : Machine)
    (d : Z) (inputs : list Z) :
  wf_animation a → wf_screen m →
  2 <= poisson_frame_count a →
  poisson_frame_count a <= 65536 ∨ currentFrame m < 65535 →
  frame_in_range a m →
  poisson_durations a !! Z.to_nat (currentFrame m) = Some d →
  1 <= d <= 65535 →
  playingAnimation m = true → frameTimer m = 0 →
  Forall idle inputs → length inputs = Z.to_nat d →
  (∀ k, (k < Z.to_nat d)%nat →
     main_loop a (take k inputs) m = Some (with_frameTimer (Z.of_nat k) m)) ∧
  ∃ f, poisson_frames a
         !! Z.to_nat ((currentFrame m + 1) mod poisson_frame_count a) = Some f ∧
    main_loop a inputs m =
    Some {| currentFrame := (currentFrame m + 1) mod poisson_frame_count a;
            frameTimer := 0; playingAnimation := true; videoBuffer := f |}.
Proof.
  intros Hwf Hm Hfc Hwrap Hin Hd Hrange Hplay Ht Hidle Hlen. split.
  - intros k Hk.
    rewrite main_loop_idle_playing by (done || by apply Forall_take).
    rewrite length_take, Nat.min_l by lia.
    apply (ticks_hold a m d); unfold U16.modulus; (done || lia).
  - destruct (ticks_advance a m d) as (f & Hf & Hrun);
      unfold U16.modulus; try (done || lia).
    rewrite next_frame_mod in Hf, Hrun by (done || unfold U16.modulus; lia).
    exists f. split; [done|].
    by rewrite main_loop_idle_playing, Hlen, Hrun, Hplay.
Qed.

Lemma frame_advances_after_duration_witness :
  (∀ k, (k < Z.to_nat 3)%nat →
     main_loop three_frames (take k [0; 0; 0]) playing_second
     = Some (with_frameTimer (Z.of_nat k) playing_second)) ∧
  ∃ f, poisson_frames three_frames
         !! Z.to_nat ((currentFrame playing_second + 1)
                      mod poisson_frame_count three_frames) = Some f ∧
    main_loop three_frames [0; 0; 0] playing_second =
    Some {| currentFrame := (currentFrame playing_second + 1)
                            mod poisson_frame_count three_frames;
            frameTimer := 0; playingAnimation := true; videoBuffer := f |}.
Proof.
  apply (frame_advances_after_duration three_frames playing_second 3
           [0; 0; 0]).
  - exact wf_three_frames.
  - apply plain_frame_length.
  - simpl. lia.
  - left. simpl. lia.
  - unfold frame_in_range. simpl. lia.
  - reflexivity.
  - lia.
  - reflexivity.
  - reflexivity.
  - repeat (apply Forall_cons_2; [split; reflexivity|]). apply Forall_nil_2.
  - reflexivity.
Defined.

(** A duration of 65536 ticks is never reached by the 16-bit timer:
    after that many ticks the timer has wrapped to 0 and the first
    frame is still the current one, where the second was due. *)
Lemma long_duration_never_reached :
  main_loop long_hold (replicate (Z.to_nat 65536) 0) playing_first
  = Some playing_first ∧
  poisson_durations long_hold !! Z.to_nat (currentFrame playing_first)
  = Some 65536 ∧
  currentFrame playing_first ≠
  (currentFrame playing_first + 1) mod poisson_frame_count long_hold.
Proof.
  split; [|split; [reflexivity|discriminate]].
  rewrite main_loop_idle_playing, length_replicate;
    [|apply Forall_replicate; split; reflexivity|reflexivity].
  replace (Z.to_nat 65536) with (S (Z.to_nat 65535)) by lia.
  rewrite ticks_snoc, (ticks_hold long_hold playing_first 65536);
    [|simpl; lia|reflexivity|reflexivity|lia|unfold U16.modulus; lia].
  cbn [mbind option_bind]. rewrite Z2Nat.id by lia.
  rewrite (updateAnimation_hold long_hold _ 65536);
    [reflexivity|simpl; lia|reflexivity|].
  globals. change (U16.incr 65535) with 0. lia.
Qed.

(** C2: [drawFrame] called with a frame index that is not below
    [poisson_frame_count] (every index, when there is no frame) returns
    without a fault and leaves the frame buffer and the three playback
    globals as they were. *)
Theorem drawFrame_guard (a : Animation) (frameIndex : Z) (m : Machine) :
  poisson_frame_count a <= frameIndex →
  drawFrame a frameIndex m = Some m.
Proof. apply drawFrame_out_of_range. Qed.

Lemma drawFrame_guard_witness :
  drawFrame three_frames 3 paused_second = Some paused_second ∧
  drawFrame no_frames 0 playing_first = Some playing_first.
Proof.
  split.
  - apply (drawFrame_guard three_frames 3 paused_second). simpl. lia.
  - apply (drawFrame_guard no_frames 0 playing_first). simpl. lia.
Defined.

(** C3 (amended): the B button alone, in Playing mode at frame 0 with
    the timer at 0. The handler of the button leaves the mode, the
    frame index and the timer as they are and draws frame 0 again (the
    same pixels as any earlier drawing of it; nothing without a frame).
    The animation is then updated in the same iteration: with at most
    one frame the iteration ends in the state the handler left; with
    two frames or more it ends at frame 0 with the timer at 1 when the
    first duration is 2 or more, and at frame 1, drawn, with the timer
    at 0 when it is 1 or less. *)
Theorem resume_while_playing (a : Animation) (keys : Z) (m : Machine) :
  wf_animation a → wf_screen m →
  key_down keys KEY_A = false → key_down keys KEY_B = true →
  playingAnimation m = true → currentFrame m = 0 → frameTimer m = 0 →
  (poisson_frame_count a <= 0 →
     handle_B a keys m = Some m ∧ loop_body a keys m = Some m) ∧
  (1 <= poisson_frame_count a →
     ∃ f0, poisson_frames a !! 0%nat = Some f0 ∧
       handle_B a keys m = Some (with_videoBuffer f0 m) ∧
       (videoBuffer m = f0 → handle_B a keys m = Some m)) ∧
  (poisson_frame_count a = 1 →
     ∃ f0, poisson_frames a !! 0%nat = Some f0 ∧
       loop_body a keys m = Some (with_videoBuffer f0 m)) ∧
  (2 <= poisson_frame_count a →
     ∀ d, poisson_durations a !! 0%nat = Some d → 2 <= d →
     ∃ f0, poisson_frames a !! 0%nat = Some f0 ∧
       loop_body a keys m =
       Some {| currentFrame := 0; frameTimer := 1;
               playingAnimation := true; videoBuffer := f0 |}) ∧
  (2 <= poisson_frame_count a →
     ∀ d, poisson_durations a !! 0%nat = Some d → d <= 1 →
     ∃ f1, poisson_frames a !! 1%nat = Some f1 ∧
       loop_body a keys m =
       Some {| currentFrame := 1; frameTimer := 0;
               playingAnimation := true; videoBuffer := f1 |}).
Proof.
  intros Hwf Hm HA HB Hplay Hcf Ht.
  rewrite (loop_body_resume_alone a keys m HA HB).
  destruct m as [cf t play buf]. cbn in Hm, Hplay, Hcf, Ht. subst.
  cbn [videoBuffer].
  assert (handle_B a keys
            {| currentFrame := 0; frameTimer := 0;
               playingAnimation := true; videoBuffer := buf |}
          = drawFrame a 0
              {| currentFrame := 0; frameTimer := 0;
                 playingAnimation := true; videoBuffer := buf |})
    as Hhandler.
  { unfold handle_B. by rewrite HB. }
  split; [|split; [|split; [|split]]].
  - intros Hfc. split.
    + rewrite Hhandler. apply drawFrame_out_of_range. lia.
    + by apply restart_empty.
  - intros Hfc.
    destruct (wf_frame_lookup a 0 Hwf ltac:(lia)) as (f0 & Hf0 & Hlen).
    exists f0. split; [exact Hf0|].
    rewrite Hhandler, (drawFrame_in_range a 0 _ f0) by (done || lia).
    split; [done|]. globals. by intros ->.
  - intros Hfc. by apply restart_single.
  - intros Hfc d Hd Hlong. by apply (restart_hold a buf d).
  - intros Hfc d Hd Hshort. by apply (restart_advance a buf d).
Qed.

Lemma resume_while_playing_witness :
  (∃ f0, poisson_frames three_frames !! 0%nat = Some f0 ∧
     handle_B three_frames KEY_B playing_first
     = Some (with_videoBuffer f0 playing_first) ∧
     (videoBuffer playing_first = f0 →
      handle_B three_frames KEY_B playing_first = Some playing_first)) ∧
  (∃ f0, poisson_frames three_frames !! 0%nat = Some f0 ∧
     loop_body three_frames KEY_B playing_first =
     Some {| currentFrame := 0; frameTimer := 1;
             playingAnimation := true; videoBuffer := f0 |}).
Proof.
  destruct (resume_while_playing three_frames KEY_B playing_first)
    as (_ & Hhandler & _ & Hhold & _).
  - exact wf_three_frames.
  - apply plain_frame_length.
  - reflexivity.
  - reflexivity.
  - reflexivity.
  - reflexivity.
  - reflexivity.
  - split.
    + apply Hhandler. simpl. lia.
    + apply (Hhold ltac:(simpl; lia) 2 eq_refl). lia.
Defined.

(** The B button pressed at the very start of frame 0, of 2 ticks: at
    the end of the iteration the timer is at 1, not at 0. *)
Lemma resume_counts_a_tick :
  loop_body three_frames KEY_B playing_first
  = Some {| currentFrame := 0; frameTimer := 1; playingAnimation := true;
            videoBuffer := plain_frame RED |} ∧
  frameTimer {| currentFrame := 0; frameTimer := 1;
                playingAnimation := true; videoBuffer := plain_frame RED |}
  ≠ frameTimer playing_first.
Proof.
  split; [|discriminate].
  rewrite (loop_body_resume_alone three_frames KEY_B playing_first)
    by reflexivity.
  change (videoBuffer playing_first) with (plain_frame RED).
  destruct (restart_hold three_frames (plain_frame RED) 2 wf_three_frames)
    as (f0 & Hf0 & Hrun);
    [apply plain_frame_length|simpl; lia|reflexivity|lia|].
  rewrite Hrun. injection Hf0 as <-. reflexivity.
Qed.

(** C4: with at least one frame, the frame index is 0, hence within
    [0, poisson_frame_count), when the main loop is entered; every
    iteration of the loop, whatever the buttons and the mode, succeeds
    and leaves it within the range; so it is within the range after
    every run of the program. *)
Theorem frame_index_stays_in_range (a : Animation) (vram : list Z) :
  wf_animation a → 1 <= poisson_frame_count a →
  length vram = screen_size →
  (∃ m0, main_start a vram = Some m0 ∧ currentFrame m0 = 0 ∧
     frameTimer m0 = 0 ∧ playingAnimation m0 = true ∧
     frame_in_range a m0) ∧
  (∀ keys m, wf_screen m → frame_in_range a m →
     ∃ m', loop_body a keys m = Some m' ∧ frame_in_range a m') ∧
  (∀ inputs, ∃ m, main a vram inputs = Some m ∧ frame_in_range a m).
Proof.
  intros Hwf Hfc Hvram.
  destruct (clear_screen_Some vram Hvram) as (blank & Hclear & Hblank).
  destruct (wf_frame_lookup a 0 Hwf ltac:(lia)) as (f0 & Hf0 & Hlen).
  assert (main_start a vram =
          Some {| currentFrame := 0; frameTimer := 0;
                  playingAnimation := true; videoBuffer := f0 |}) as Hstart.
  { unfold main_start. rewrite Hclear. cbn [mbind option_bind].
    by rewrite (drawFrame_in_range a 0 _ f0) by (done || lia). }
  assert (∀ inputs m, wf_screen m → frame_in_range a m →
            ∃ m', main_loop a inputs m = Some m' ∧ frame_in_range a m')
    as Hloop.
  { induction inputs as [|keys inputs IH]; intros m Hm Hin; [by exists m|].
    destruct (loop_body_in_range a keys m Hwf Hfc Hm Hin)
      as (m1 & Hrun & Hm1 & Hin1).
    cbn [main_loop]. rewrite Hrun. cbn [mbind option_bind]. by apply IH. }
  split; [|split].
  - eexists. split; [exact Hstart|]. unfold frame_in_range. globals.
    repeat split; lia.
  - intros keys m Hm Hin.
    destruct (loop_body_in_range a keys m Hwf Hfc Hm Hin)
      as (m' & Hrun & _ & Hin').
    by exists m'.
  - intros inputs. unfold main. rewrite Hstart. cbn [mbind option_bind].
    apply Hloop; [exact Hlen|]. unfold frame_in_range. globals. lia.
Qed.

Lemma frame_index_stays_in_range_witness :
  (∃ m0, main_start three_frames (plain_frame WHITE) = Some m0 ∧
     currentFrame m0 = 0 ∧ frameTimer m0 = 0 ∧ playingAnimation m0 = true ∧
     frame_in_range three_frames m0) ∧
  (∀ keys m, wf_screen m → frame_in_range three_frames m →
     ∃ m', loop_body three_frames keys m = Some m' ∧
       frame_in_range three_frames m') ∧
  (∀ inputs, ∃ m, main three_frames (plain_frame WHITE) inputs = Some m ∧
     frame_in_range three_frames m).
Proof.
  apply (frame_index_stays_in_range three_frames (plain_frame WHITE)).
  - exact wf_three_frames.
  - simpl. lia.
  - apply plain_frame_length.
Defined.

(** C5: the colour-bar loops write, in every row, red to the columns
    0..79, green to the columns 80..159 and blue to the columns
    160..239; the pixels (0,0), (80,0), (160,0) and (239,159) are pure
    red, green, blue and blue, a pure colour being the packed 5:5:5
    value with one channel at 31 and the two others at 0. *)
Theorem color_bars_pixel_exact (buf : list Z) :
  length buf = screen_size →
  ∃ bars, draw_color_bars buf = Some bars ∧
    (∀ x y, (y < 160)%nat →
       ((x < 80)%nat → bars !! (y * 240 + x)%nat = Some RED) ∧
       ((80 ≤ x < 160)%nat → bars !! (y * 240 + x)%nat = Some GREEN) ∧
       ((160 ≤ x < 240)%nat → bars !! (y * 240 + x)%nat = Some BLUE)) ∧
    bars !! (0 * 240 + 0)%nat = Some (RGB16 31 0 0) ∧
    bars !! (0 * 240 + 80)%nat = Some (RGB16 0 31 0) ∧
    bars !! (0 * 240 + 160)%nat = Some (RGB16 0 0 31) ∧
    bars !! (159 * 240 + 239)%nat = Some (RGB16 0 0 31) ∧
    RGB16 31 0 0 = 31 ∧ RGB16 0 31 0 = 992 ∧ RGB16 0 0 31 = 31744.
Proof.
  intros Hb.
  destruct (draw_color_bars_pixels buf Hb) as (bars & Hrun & _ & Hpix).
  assert (∀ x, (x < 80)%nat → bar_pixel x = RED) as Hred.
  { intros x Hx. unfold bar_pixel.
    destruct (Nat.ltb_spec x 80); [done|lia]. }
  assert (∀ x, (80 ≤ x < 160)%nat → bar_pixel x = GREEN) as Hgreen.
  { intros x Hx. unfold bar_pixel.
    destruct (Nat.ltb_spec x 80); [lia|].
    destruct (Nat.ltb_spec x 160); [done|lia]. }
  assert (∀ x, (160 ≤ x < 240)%nat → bar_pixel x = BLUE) as Hblue.
  { intros x Hx. unfold bar_pixel.
    destruct (Nat.ltb_spec x 80); [lia|].
    destruct (Nat.ltb_spec x 160); [lia|done]. }
  exists bars. split; [done|]. split; [|repeat split].
  - intros x y Hy. repeat split; intros Hx.
    + rewrite Hpix, Hred by lia. done.
    + rewrite Hpix, Hgreen by lia. done.
    + rewrite Hpix, Hblue by lia. done.
  - rewrite Hpix, Hred by lia. done.
  - rewrite Hpix, Hgreen by lia. done.
  - rewrite Hpix, Hblue by lia. done.
  - rewrite Hpix, Hblue by lia. done.
Qed.

Lemma color_bars_pixel_exact_witness :
  ∃ bars, draw_color_bars (plain_frame WHITE) = Some bars ∧
    bars !! (0 * 240 + 0)%nat = Some 31 ∧
    bars !! (0 * 240 + 80)%nat = Some 992 ∧
    bars !! (0 * 240 + 160)%nat = Some 31744 ∧
    bars !! (159 * 240 + 239)%nat = Some 31744.
Proof.
  destruct (color_bars_pixel_exact (plain_frame WHITE))
    as (bars & Hrun & _ & H00 & H80 & H160 & Hlast & _).
  - apply plain_frame_length.
  - exists bars. exact (conj Hrun (conj H00 (conj H80 (conj H160 Hlast)))).
Defined.

(** C6: with at most one frame, any number of tick updates in Playing
    mode ([updateAnimation] called directly, or through iterations of
    the main loop without a button) leaves the frame index at 0 and the
    timer, as the whole state, unchanged. *)
Theorem single_frame_never_advances (a : Animation) (m : Machine)
    (n : nat) (inputs : list Z) :
  poisson_frame_count a <= 1 →
  currentFrame m = 0 → playingAnimation m = true → Forall idle inputs →
  ∃ m', ticks a n m = Some m' ∧ main_loop a inputs m = Some m' ∧
    currentFrame m' = 0 ∧ frameTimer m' = frameTimer m ∧ m' = m.
Proof.
  intros Hfc Hcf Hplay Hidle.
  assert (∀ k, ticks a k m = Some m) as Hticks.
  { induction k as [|k IH]; [done|].
    rewrite ticks_S, updateAnimation_single by done. exact IH. }
  exists m. rewrite main_loop_idle_playing by done.
  by rewrite !Hticks.
Qed.

Lemma single_frame_never_advances_witness :
  ∃ m', ticks no_frames 7 playing_first = Some m' ∧
    main_loop no_frames [0; 4; 8] playing_first = Some m' ∧
    currentFrame m' = 0 ∧ frameTimer m' = frameTimer playing_first ∧
    m' = playing_first.
Proof.
  apply (single_frame_never_advances no_frames playing_first 7 [0; 4; 8]).
  - simpl. lia.
  - reflexivity.
  - reflexivity.
  - repeat constructor.
Defined.

(** C7: the A button pressed in Playing mode pauses the animation and
    draws the colour-bar pattern (in every row red in the columns 0 to
    79, green in the columns 80 to 159, blue in the columns 160 to 239)
    without changing the frame index or the timer, and this is the
    state at the end of the iteration when the B button is not pressed
    with it; and while the animation is paused, an iteration without
    the B button changes neither the frame index, nor the timer, nor
    the mode (nothing at all when no button is pressed). *)
Theorem toggle_bars_freezes_playback (a : Animation) (keys : Z)
    (m : Machine) :
  wf_screen m →
  (playingAnimation m = true → key_down keys KEY_A = true →
     ∃ bars, shows_bars bars ∧
       (∀ x y, (y < 160)%nat →
          ((x < 80)%nat → bars !! (y * 240 + x)%nat = Some RED) ∧
          ((80 ≤ x < 160)%nat → bars !! (y * 240 + x)%nat = Some GREEN) ∧
          ((160 ≤ x < 240)%nat → bars !! (y * 240 + x)%nat = Some BLUE)) ∧
       RED = 31 ∧ GREEN = 992 ∧ BLUE = 31744 ∧
       handle_A keys m =
       Some {| currentFrame := currentFrame m; frameTimer := frameTimer m;
               playingAnimation := false; videoBuffer := bars |} ∧
       (no_resume keys →
        loop_body a keys m =
        Some {| currentFrame := currentFrame m; frameTimer := frameTimer m;
                playingAnimation := false; videoBuffer := bars |})) ∧
  (playingAnimation m = false → no_resume keys →
     ∃ m', loop_body a keys m = Some m' ∧
       currentFrame m' = currentFrame m ∧
       frameTimer m' = frameTimer m ∧
       playingAnimation m' = false ∧
       (idle keys → m' = m)).
Proof.
  intros Hm. split.
  - intros _ HA.
    destruct (handle_A_pressed keys m HA Hm) as (bars & Hbars & Hrun).
    exists bars. split; [exact Hbars|]. split; [exact (proj2 Hbars)|].
    split; [reflexivity|]. split; [reflexivity|]. split; [reflexivity|].
    split; [exact Hrun|].
    intros HB. unfold loop_body. rewrite Hrun. cbn [mbind option_bind].
    unfold handle_B. by rewrite HB.
  - intros Hpause HB.
    destruct (loop_body_paused a keys m HB Hm Hpause)
      as (buf & Hrun & _ & Hidle & _).
    exists (with_videoBuffer buf m). split; [done|].
    split; [done|]. split; [done|]. split; [done|].
    intros Hkeys. rewrite (Hidle Hkeys). by destruct m.
Qed.

Lemma toggle_bars_freezes_playback_witness :
  (∃ bars, shows_bars bars ∧
     (∀ x y, (y < 160)%nat →
        ((x < 80)%nat → bars !! (y * 240 + x)%nat = Some RED) ∧
        ((80 ≤ x < 160)%nat → bars !! (y * 240 + x)%nat = Some GREEN) ∧
        ((160 ≤ x < 240)%nat → bars !! (y * 240 + x)%nat = Some BLUE)) ∧
     RED = 31 ∧ GREEN = 992 ∧ BLUE = 31744 ∧
     handle_A KEY_A playing_second =
     Some {| currentFrame := currentFrame playing_second;
             frameTimer := frameTimer playing_second;
             playingAnimation := false; videoBuffer := bars |} ∧
     loop_body three_frames KEY_A playing_second =
     Some {| currentFrame := currentFrame playing_second;
             frameTimer := frameTimer playing_second;
             playingAnimation := false; videoBuffer := bars |}) ∧
  (∃ m', loop_body three_frames 0 paused_second = Some m' ∧
     currentFrame m' = currentFrame paused_second ∧
     frameTimer m' = frameTimer paused_second ∧
     playingAnimation m' = false ∧
     (idle 0 → m' = paused_second)).
Proof.
  split.
  - destruct (toggle_bars_freezes_playback three_frames KEY_A playing_second
                (plain_frame_length GREEN)) as [Hplaying _].
    destruct (Hplaying eq_refl eq_refl)
      as (bars & Hbars & Hpix & Hred & Hgreen & Hblue & Hhandler & Hbody).
    exists bars.
    exact (conj Hbars (conj Hpix (conj Hred (conj Hgreen (conj Hblue
             (conj Hhandler (Hbody eq_refl))))))).
  - destruct (toggle_bars_freezes_playback three_frames 0 paused_second
                (plain_frame_length GREEN)) as [_ Hpaused].
    exact (Hpaused eq_refl eq_refl).
Defined.

(** C8: of two consecutive presses of the A button with no press of
    the B button in between, only the first changes the mode: after
    the second one the mode is still the paused one and the frame index
    and the timer are those left by the first one (as is the screen). *)
Theorem second_toggle_is_idempotent (a : Animation) (m : Machine)
    (first second : Z) (between : list Z) :
  wf_screen m → playingAnimation m = true →
  toggle_only first → Forall no_resume between → toggle_only second →
  ∃ m1 m2,
    loop_body a first m = Some m1 ∧
    main_loop a (between ++ [second]) m1 = Some m2 ∧
    playingAnimation m1 = false ∧ playingAnimation m2 = false ∧
    currentFrame m2 = currentFrame m1 ∧ frameTimer m2 = frameTimer m1 ∧
    m2 = m1.
Proof.
  intros Hm Hplay Hfirst Hbetween Hsecond.
  destruct (loop_body_toggle a first m Hfirst Hm) as (bars & Hbars & Hrun).
  eexists _, _. split; [exact Hrun|].
  split; [|by repeat split].
  apply main_loop_paused; [|done|exact Hbars].
  apply Forall_app. split; [done|].
  apply Forall_cons_2; [apply Hsecond|apply Forall_nil_2].
Qed.

Lemma second_toggle_is_idempotent_witness :
  ∃ m1 m2,
    loop_body three_frames KEY_A playing_first = Some m1 ∧
    main_loop three_frames ([0; 0] ++ [KEY_A]) m1 = Some m2 ∧
    playingAnimation m1 = false ∧ playingAnimation m2 = false ∧
    currentFrame m2 = currentFrame m1 ∧ frameTimer m2 = frameTimer m1 ∧
    m2 = m1.
Proof.
  apply (second_toggle_is_idempotent three_frames playing_first
           KEY_A KEY_A [0; 0]).
  - apply plain_frame_length.
  - reflexivity.
  - split; reflexivity.
  - apply Forall_cons_2; [reflexivity|].
    apply Forall_cons_2; [reflexivity|]. apply Forall_nil_2.
  - split; reflexivity.
Defined.

(** C9: three frames with the durations 2, 3 and 1, from the start of
    frame 0 in Playing mode and without a button: after tick 1 frame 0
    is still the current one; tick 2 moves to frame 1 and resets the
    timer; ticks 3 and 4 hold frame 1; tick 5 moves to frame 2; tick 6
    wraps to frame 0. *)
Theorem three_frame_scenario (f0 f1 f2 : list Z) (m : Machine) :
  length f0 = screen_size → length f1 = screen_size →
  length f2 = screen_size → wf_screen m →
  currentFrame m = 0 → frameTimer m = 0 → playingAnimation m = true →
  let a := {| poisson_frame_count := 3; poisson_durations := [2; 3; 1];
              poisson_frames := [f0; f1; f2] |} in
  let state frame timer buf :=
    Some {| currentFrame := frame; frameTimer := timer;
            playingAnimation := true; videoBuffer := buf |} in
  main_loop a (replicate 1 0) m = state 0 1 (videoBuffer m) ∧
  main_loop a (replicate 2 0) m = state 1 0 f1 ∧
  main_loop a (replicate 3 0) m = state 1 1 f1 ∧
  main_loop a (replicate 4 0) m = state 1 2 f1 ∧
  main_loop a (replicate 5 0) m = state 2 0 f2 ∧
  main_loop a (replicate 6 0) m = state 0 0 f0.
Proof.
  intros H0 H1 H2 Hm Hcf Ht Hplay a state.
  destruct m as [cf t play buf]. cbn in Hm, Hcf, Ht, Hplay. subst.
  cbn [videoBuffer]. subst state.
  assert (2 <= poisson_frame_count a) as Hfc by (simpl; lia).
  assert (updateAnimation a
            {| currentFrame := 0; frameTimer := 0;
               playingAnimation := true; videoBuffer := buf |}
          = Some {| currentFrame := 0; frameTimer := 1;
                    playingAnimation := true; videoBuffer := buf |}) as T1.
  { rewrite (updateAnimation_hold a _ 2) by scenario_step. reflexivity. }
  assert (updateAnimation a
            {| currentFrame := 0; frameTimer := 1;
               playingAnimation := true; videoBuffer := buf |}
          = Some {| currentFrame := 1; frameTimer := 0;
                    playingAnimation := true; videoBuffer := f1 |}) as T2.
  { rewrite (updateAnimation_next a _ 2 1 f1) by scenario_step.
    reflexivity. }
  assert (updateAnimation a
            {| currentFrame := 1; frameTimer := 0;
               playingAnimation := true; videoBuffer := f1 |}
          = Some {| currentFrame := 1; frameTimer := 1;
                    playingAnimation := true; videoBuffer := f1 |}) as T3.
  { rewrite (updateAnimation_hold a _ 3) by scenario_step. reflexivity. }
  assert (updateAnimation a
            {| currentFrame := 1; frameTimer := 1;
               playingAnimation := true; videoBuffer := f1 |}
          = Some {| currentFrame := 1; frameTimer := 2;
                    playingAnimation := true; videoBuffer := f1 |}) as T4.
  { rewrite (updateAnimation_hold a _ 3) by scenario_step. reflexivity. }
  assert (updateAnimation a
            {| currentFrame := 1; frameTimer := 2;
               playingAnimation := true; videoBuffer := f1 |}
          = Some {| currentFrame := 2; frameTimer := 0;
                    playingAnimation := true; videoBuffer := f2 |}) as T5.
  { rewrite (updateAnimation_next a _ 3 2 f2) by scenario_step.
    reflexivity. }
  assert (updateAnimation a
            {| currentFrame := 2; frameTimer := 0;
               playingAnimation := true; videoBuffer := f2 |}
          = Some {| currentFrame := 0; frameTimer := 0;
                    playingAnimation := true; videoBuffer := f0 |}) as T6.
  { rewrite (updateAnimation_next a _ 1 0 f0) by scenario_step.
    reflexivity. }
  assert (∀ n, Forall idle (replicate n 0)) as Hidle.
  { intros n. apply Forall_replicate. by split. }
  rewrite !main_loop_idle_playing, !length_replicate by done.
  cbn [ticks].
  rewrite T1. cbn [mbind option_bind]. split; [done|].
  rewrite T2. cbn [mbind option_bind]. split; [done|].
  rewrite T3. cbn [mbind option_bind]. split; [done|].
  rewrite T4. cbn [mbind option_bind]. split; [done|].
  rewrite T5. cbn [mbind option_bind]. split; [done|].
  rewrite T6. done.
Qed.

Lemma three_frame_scenario_witness :
  let state frame timer buf :=
    Some {| currentFrame := frame; frameTimer := timer;
            playingAnimation := true; videoBuffer := buf |} in
  main_loop three_frames (replicate 1 0) playing_first
    = state 0 1 (videoBuffer playing_first) ∧
  main_loop three_frames (replicate 2 0) playing_first
    = state 1 0 (plain_frame GREEN) ∧
  main_loop three_frames (replicate 3 0) playing_first
    = state 1 1 (plain_frame GREEN) ∧
  main_loop three_frames (replicate 4 0) playing_first
    = state 1 2 (plain_frame GREEN) ∧
  main_loop three_frames (replicate 5 0) playing_first
    = state 2 0 (plain_frame BLUE) ∧
  main_loop three_frames (replicate 6 0) playing_first
    = state 0 0 (plain_frame RED).
Proof.
  apply (three_frame_scenario (plain_frame RED) (plain_frame GREEN)
           (plain_frame BLUE) playing_first).
  - apply plain_frame_length.
  - apply plain_frame_length.
  - apply plain_frame_length.
  - apply plain_frame_length.
  - reflexivity.
  - reflexivity.
  - reflexivity.
Defined.

(** C10 (amended): both buttons in one iteration. The A button is
    handled first (the bars are drawn, the animation is paused) and the
    B button overrides it: the iteration ends in Playing mode. With at
    least one frame, frame 0 is drawn over the bars and the animation is
    then updated in the same iteration: it ends at frame 0, on the
    screen, with one frame (timer at 0) or with a first duration of 2 or
    more (timer at 1), and at frame 1, on the screen, with two frames or
    more and a first duration of 1 or less. Without a frame the bars
    stay on the screen. *)
Theorem resume_overrides_toggle (a : Animation) (keys : Z) (m : Machine) :
  wf_animation a → wf_screen m →
  key_down keys KEY_A = true → key_down keys KEY_B = true →
  ∃ bars, shows_bars bars ∧
    handle_A keys m =
    Some {| currentFrame := currentFrame m; frameTimer := frameTimer m;
            playingAnimation := false; videoBuffer := bars |} ∧
    (poisson_frame_count a <= 0 →
       loop_body a keys m =
       Some {| currentFrame := 0; frameTimer := 0;
               playingAnimation := true; videoBuffer := bars |}) ∧
    (poisson_frame_count a = 1 →
       ∃ f0, poisson_frames a !! 0%nat = Some f0 ∧
         loop_body a keys m =
         Some {| currentFrame := 0; frameTimer := 0;
                 playingAnimation := true; videoBuffer := f0 |}) ∧
    (2 <= poisson_frame_count a →
       ∀ d, poisson_durations a !! 0%nat = Some d → 2 <= d →
       ∃ f0, poisson_frames a !! 0%nat = Some f0 ∧
         loop_body a keys m =
         Some {| currentFrame := 0; frameTimer := 1;
                 playingAnimation := true; videoBuffer := f0 |}) ∧
    (2 <= poisson_frame_count a →
       ∀ d, poisson_durations a !! 0%nat = Some d → d <= 1 →
       ∃ f1, poisson_frames a !! 1%nat = Some f1 ∧
         loop_body a keys m =
         Some {| currentFrame := 1; frameTimer := 0;
                 playingAnimation := true; videoBuffer := f1 |}).
Proof.
  intros Hwf Hm HA HB.
  destruct (loop_body_both a keys m HA HB Hm)
    as (bars & Hbars & Hhandler & ->).
  exists bars. split; [exact Hbars|]. split; [exact Hhandler|].
  pose proof (proj1 Hbars) as Hlen.
  split; [|split; [|split]].
  - intros Hfc. by apply restart_empty.
  - intros Hfc. by apply restart_single.
  - intros Hfc d Hd Hlong. by apply (restart_hold a bars d).
  - intros Hfc d Hd Hshort. by apply (restart_advance a bars d).
Qed.

Lemma resume_overrides_toggle_witness :
  ∃ bars, shows_bars bars ∧
    handle_A 3 paused_second =
    Some {| currentFrame := currentFrame paused_second;
            frameTimer := frameTimer paused_second;
            playingAnimation := false; videoBuffer := bars |} ∧
    ∃ f0, poisson_frames three_frames !! 0%nat = Some f0 ∧
      loop_body three_frames 3 paused_second =
      Some {| currentFrame := 0; frameTimer := 1;
              playingAnimation := true; videoBuffer := f0 |}.
Proof.
  destruct (resume_overrides_toggle three_frames 3 paused_second)
    as (bars & Hbars & Hhandler & _ & _ & Hhold & _).
  - exact wf_three_frames.
  - apply plain_frame_length.
  - reflexivity.
  - reflexivity.
  - exists bars. split; [exact Hbars|]. split; [exact Hhandler|].
    apply (Hhold ltac:(simpl; lia) 2 eq_refl). lia.
Defined.

(** Both buttons pressed when the first frame lasts one tick: the
    iteration ends at frame 1, drawn, not at frame 0. *)
Lemma resume_then_update_leaves_frame_0 :
  loop_body quick_first 3 playing_first
  = Some {| currentFrame := 1; frameTimer := 0; playingAnimation := true;
            videoBuffer := plain_frame GREEN |} ∧
  currentFrame {| currentFrame := 1; frameTimer := 0;
                  playingAnimation := true;
                  videoBuffer := plain_frame GREEN |} ≠ 0.
Proof.
  split; [|discriminate].
  destruct (loop_body_both quick_first 3 playing_first)
    as (bars & Hbars & _ & ->);
    [reflexivity|reflexivity|apply plain_frame_length|].
  destruct (restart_advance quick_first bars 1 wf_quick_first)
    as (f1 & Hf1 & Hrun); [apply Hbars|simpl; lia|reflexivity|lia|].
  rewrite Hrun. injection Hf1 as <-. reflexivity.
Qed.

(** * Further properties of the code *)

(** ** The screen at the start *)

Lemma wf_no_frames : wf_animation no_frames.
Proof. split; [done|done|]. apply Forall_nil_2. Qed.

Lemma wf_one_frame : wf_animation one_frame.
Proof.
  split; [done|done|].
  repeat (apply Forall_cons_2; [apply plain_frame_length|]).
  apply Forall_nil_2.
Qed.


(** X1: the clearing loop of [main] leaves every pixel of the screen
    black, whatever the frame buffer held. *)
Theorem clear_screen_black (buf : list Z) :
  length buf = screen_size →
  clear_screen buf = Some (replicate screen_size BLACK).
Proof.
  intros Hb. unfold clear_screen.
  destruct (for_loop_invariant
    (λ j (b : list Z), length b = screen_size ∧
       ∀ k, (k < j)%nat → b !! k = Some BLACK)
    (λ i buf, write buf i (U16.wrap BLACK)) screen_size 0%nat buf)
    as (b & Hrun & Hlen & Hpix).
  - split; [done|]. intros k Hk. lia.
  - intros j t Hj [Ht Hdone]. exists (<[j := U16.wrap BLACK]> t).
    rewrite write_Some by lia. split; [done|].
    split; [by rewrite length_insert|].
    intros k Hk. destruct (decide (k = j)) as [->|Hne].
    + rewrite list_lookup_insert_eq by lia. done.
    + rewrite list_lookup_insert_ne by done. apply Hdone. lia.
  - rewrite Hrun. f_equal. apply list_eq. intros k.
    destruct (decide (k < screen_size)%nat) as [Hk|Hk].
    + rewrite lookup_replicate_2 by done. apply Hpix. lia.
    + rewrite !lookup_ge_None_2; [done| |lia].
      rewrite length_replicate. lia.
Qed.

Lemma clear_screen_black_witness :
  clear_screen (plain_frame WHITE) = Some (replicate screen_size BLACK).
Proof.
  apply (clear_screen_black (plain_frame WHITE)).
  apply plain_frame_length.
Defined.

(** X2: when the main loop is entered the animation plays, at frame 0
    with the timer at 0; the screen shows frame 0 when there is one and
    is black otherwise. *)
Theorem main_start_state (a : Animation) (vram : list Z) :
  wf_animation a → length vram = screen_size →
  (1 <= poisson_frame_count a →
     ∃ f0, poisson_frames a !! 0%nat = Some f0 ∧
       main_start a vram =
       Some {| currentFrame := 0; frameTimer := 0;
               playingAnimation := true; videoBuffer := f0 |}) ∧
  (poisson_frame_count a <= 0 →
     main_start a vram =
     Some {| currentFrame := 0; frameTimer := 0; playingAnimation := true;
             videoBuffer := replicate screen_size BLACK |}).
Proof.
  intros Hwf Hvram. unfold main_start.
  rewrite (clear_screen_black vram Hvram). cbn [mbind option_bind]. split.
  - intros Hfc.
    destruct (wf_frame_lookup a 0 Hwf ltac:(lia)) as (f0 & Hf0 & Hlen).
    exists f0. split; [exact Hf0|].
    rewrite (drawFrame_in_range a 0 _ f0); [done|lia|done|done|].
    apply length_replicate.
  - intros Hfc. apply drawFrame_out_of_range. lia.
Qed.

Lemma main_start_state_witness :
  (∃ f0, poisson_frames three_frames !! 0%nat = Some f0 ∧
     main_start three_frames (plain_frame WHITE) =
     Some {| currentFrame := 0; frameTimer := 0;
             playingAnimation := true; videoBuffer := f0 |}) ∧
  main_start no_frames (plain_frame WHITE) =
  Some {| currentFrame := 0; frameTimer := 0; playingAnimation := true;
          videoBuffer := replicate screen_size BLACK |}.
Proof.
  split.
  - apply (main_start_state three_frames (plain_frame WHITE)).
    + exact wf_three_frames.
    + apply plain_frame_length.
    + simpl. lia.
  - apply (main_start_state no_frames (plain_frame WHITE)).
    + exact wf_no_frames.
    + apply plain_frame_length.
    + simpl. lia.
Defined.

(** ** [drawFrame] *)

(** X3: [drawFrame] with an index below [poisson_frame_count] replaces
    the whole screen by the frame, whatever was on it, and changes no
    global; drawing the frame again changes nothing. *)
Theorem drawFrame_overwrites (a : Animation) (frameIndex : Z)
    (m : Machine) :
  wf_animation a → wf_screen m →
  0 <= frameIndex < poisson_frame_count a →
  ∃ f, poisson_frames a !! Z.to_nat frameIndex = Some f ∧
    drawFrame a frameIndex m =
    Some {| currentFrame := currentFrame m; frameTimer := frameTimer m;
            playingAnimation := playingAnimation m; videoBuffer := f |} ∧
    drawFrame a frameIndex
      {| currentFrame := currentFrame m; frameTimer := frameTimer m;
         playingAnimation := playingAnimation m; videoBuffer := f |} =
    Some {| currentFrame := currentFrame m; frameTimer := frameTimer m;
            playingAnimation := playingAnimation m; videoBuffer := f |}.
Proof.
  intros Hwf Hm Hidx.
  destruct (wf_frame_lookup a frameIndex Hwf Hidx) as (f & Hf & Hlen).
  exists f. split; [exact Hf|]. split.
  - by rewrite (drawFrame_in_range a frameIndex m f) by (done || lia).
  - by rewrite (drawFrame_in_range a frameIndex _ f) by (done || lia).
Qed.

Lemma drawFrame_overwrites_witness :
  ∃ f, poisson_frames three_frames !! Z.to_nat 2 = Some f ∧
    drawFrame three_frames 2 paused_second =
    Some {| currentFrame := currentFrame paused_second;
            frameTimer := frameTimer paused_second;
            playingAnimation := playingAnimation paused_second;
            videoBuffer := f |} ∧
    drawFrame three_frames 2
      {| currentFrame := currentFrame paused_second;
         frameTimer := frameTimer paused_second;
         playingAnimation := playingAnimation paused_second;
         videoBuffer := f |} =
    Some {| currentFrame := currentFrame paused_second;
            frameTimer := frameTimer paused_second;
            playingAnimation := playingAnimation paused_second;
            videoBuffer := f |}.
Proof.
  apply (drawFrame_overwrites three_frames 2 paused_second).
  - exact wf_three_frames.
  - apply plain_frame_length.
  - simpl. lia.
Defined.

(** ** What every reachable state satisfies *)

Lemma updateAnimation_invariant (a : Animation) (m : Machine) :
  wf_animation a → 1 <= poisson_frame_count a →
  playback_invariant a m → playingAnimation m = true →
  ∃ m', updateAnimation a m = Some m' ∧ playback_invariant a m'.
Proof.
  intros Hwf Hfc (Hm & Hin & Hscreen & Htimer) Hplay.
  destruct (Z.le_gt_cases (poisson_frame_count a) 1) as [Hone|Hmore].
  { exists m. by rewrite updateAnimation_single. }
  destruct (wf_duration_lookup a (currentFrame m) Hwf Hin) as [d Hd].
  unfold screen_consistent in Hscreen. rewrite Hplay in Hscreen.
  destruct (Z.le_gt_cases d (U16.incr (frameTimer m))) as [Hge|Hlt].
  - pose proof (next_frame_in_range a (currentFrame m) Hfc) as Hnext.
    destruct (wf_frame_lookup a _ Hwf Hnext) as (f & Hf & Hlen).
    rewrite (updateAnimation_next a m d (next_frame a (currentFrame m)) f)
      by (done || lia).
    eexists. split; [done|]. split; [exact Hlen|]. split; [exact Hnext|].
    split.
    + unfold screen_consistent. globals. by rewrite Hplay.
    + intros Hpos.
      destruct (wf_duration_lookup a _ Hwf Hnext) as [d' Hd'].
      exists d'. globals. split; [exact Hd'|].
      pose proof (Forall_lookup_1 _ _ _ _ Hpos Hd'). simpl in *. lia.
  - rewrite (updateAnimation_hold a m d) by (done || lia).
    eexists. split; [done|]. split; [exact Hm|]. split; [exact Hin|].
    split.
    + unfold screen_consistent. globals. by rewrite Hplay.
    + intros _. exists d. globals. split; [exact Hd|].
      unfold U16.incr, U16.wrap, U16.modulus in *.
      pose proof (Z.mod_pos_bound (frameTimer m + 1) 65536 ltac:(lia)). lia.
Qed.

Lemma loop_body_invariant (a : Animation) (keys : Z) (m : Machine) :
  wf_animation a → 1 <= poisson_frame_count a →
  playback_invariant a m →
  ∃ m', loop_body a keys m = Some m' ∧ playback_invariant a m'.
Proof.
  intros Hwf Hfc Hinv. unfold loop_body.
  assert (∃ m1, handle_A keys m = Some m1 ∧ playback_invariant a m1)
    as (m1 & -> & Hinv1).
  { destruct (key_down keys KEY_A) eqn:HA.
    - destruct Hinv as (Hm & Hin & _ & Htimer).
      destruct (handle_A_pressed keys m HA Hm) as (bars & Hbars & ->).
      eexists. split; [done|]. split; [apply Hbars|]. split; [exact Hin|].
      split; [exact Hbars|exact Htimer].
    - unfold handle_A. rewrite HA. by exists m. }
  cbn [mbind option_bind].
  assert (∃ m2, handle_B a keys m1 = Some m2 ∧ playback_invariant a m2)
    as (m2 & -> & Hinv2).
  { unfold handle_B. destruct (key_down keys KEY_B); [|by exists m1].
    destruct Hinv1 as (Hm1 & _).
    destruct (wf_frame_lookup a 0 Hwf ltac:(lia)) as (f0 & Hf0 & Hlen).
    globals. rewrite (drawFrame_in_range a 0 _ f0) by (done || lia).
    eexists. split; [done|]. split; [exact Hlen|].
    split; [unfold frame_in_range; globals; lia|]. split; [exact Hf0|].
    intros Hpos.
    destruct (wf_duration_lookup a 0 Hwf ltac:(lia)) as [d0 Hd0].
    exists d0. globals. split; [exact Hd0|].
    pose proof (Forall_lookup_1 _ _ _ _ Hpos Hd0). simpl in *. lia. }
  cbn [mbind option_bind].
  destruct (playingAnimation m2) eqn:Hplay; [|by exists m2].
  by apply updateAnimation_invariant.
Qed.

Lemma main_invariant (a : Animation) (vram inputs : list Z) :
  wf_animation a → 1 <= poisson_frame_count a →
  length vram = screen_size →
  ∃ m, main a vram inputs = Some m ∧ playback_invariant a m.
Proof.
  intros Hwf Hfc Hvram. unfold main.
  destruct (wf_frame_lookup a 0 Hwf ltac:(lia)) as (f0 & Hf0 & Hlen).
  assert (main_start a vram =
          Some {| currentFrame := 0; frameTimer := 0;
                  playingAnimation := true; videoBuffer := f0 |}) as ->.
  { unfold main_start. rewrite (clear_screen_black vram Hvram).
    cbn [mbind option_bind].
    rewrite (drawFrame_in_range a 0 _ f0); [done|lia|done|done|].
    apply length_replicate. }
  cbn [mbind option_bind].
  assert (playback_invariant a
            {| currentFrame := 0; frameTimer := 0;
               playingAnimation := true; videoBuffer := f0 |}) as Hinv.
  { split; [exact Hlen|]. split; [unfold frame_in_range; globals; lia|].
    split; [exact Hf0|]. intros Hpos.
    destruct (wf_duration_lookup a 0 Hwf ltac:(lia)) as [d0 Hd0].
    exists d0. globals. split; [exact Hd0|].
    pose proof (Forall_lookup_1 _ _ _ _ Hpos Hd0). simpl in *. lia. }
  revert Hinv. generalize {| currentFrame := 0; frameTimer := 0;
    playingAnimation := true; videoBuffer := f0 |}.
  induction inputs as [|keys inputs IH]; intros m Hinv; [by exists m|].
  destruct (loop_body_invariant a keys m Hwf Hfc Hinv) as (m1 & Hrun & Hinv1).
  cbn [main_loop]. rewrite Hrun. cbn [mbind option_bind]. by apply IH.
Qed.

(** X4: with at least one frame, after any sequence of key presses the
    screen shows the current frame when the animation plays and the
    colour bars when it is paused. *)
Theorem screen_follows_mode (a : Animation) (vram inputs : list Z) :
  wf_animation a → 1 <= poisson_frame_count a →
  length vram = screen_size →
  ∃ m, main a vram inputs = Some m ∧
    (playingAnimation m = true →
     poisson_frames a !! Z.to_nat (currentFrame m) = Some (videoBuffer m)) ∧
    (playingAnimation m = false → shows_bars (videoBuffer m)).
Proof.
  intros Hwf Hfc Hvram.
  destruct (main_invariant a vram inputs Hwf Hfc Hvram)
    as (m & Hrun & _ & _ & Hscreen & _).
  exists m. split; [exact Hrun|]. unfold screen_consistent in Hscreen.
  split; intros Hmode; by rewrite Hmode in Hscreen.
Qed.

Lemma screen_follows_mode_witness :
  ∃ m, main three_frames (plain_frame WHITE) [0; KEY_A; 0; KEY_B; 0]
       = Some m ∧
    (playingAnimation m = true →
     poisson_frames three_frames !! Z.to_nat (currentFrame m)
     = Some (videoBuffer m)) ∧
    (playingAnimation m = false → shows_bars (videoBuffer m)).
Proof.
  apply (screen_follows_mode three_frames (plain_frame WHITE)
           [0; KEY_A; 0; KEY_B; 0]).
  - exact wf_three_frames.
  - simpl. lia.
  - apply plain_frame_length.
Defined.

(** X5: with at least one frame and every duration at least 1, after
    any sequence of key presses the program has not faulted and the
    timer is not negative and below the duration of the current frame:
    [0 <= frameTimer < poisson_durations[currentFrame]]. *)
Theorem timer_stays_below_duration (a : Animation) (vram inputs : list Z) :
  wf_animation a → 1 <= poisson_frame_count a →
  Forall (λ d, 1 <= d) (poisson_durations a) →
  length vram = screen_size →
  ∃ m d, main a vram inputs = Some m ∧
    poisson_durations a !! Z.to_nat (currentFrame m) = Some d ∧
    0 <= frameTimer m < d.
Proof.
  intros Hwf Hfc Hpos Hvram.
  destruct (main_invariant a vram inputs Hwf Hfc Hvram)
    as (m & Hrun & _ & _ & _ & Htimer).
  destruct (Htimer Hpos) as (d & Hd & Hlt). by exists m, d.
Qed.

Lemma timer_stays_below_duration_witness :
  ∃ m d, main three_frames (plain_frame WHITE) [0; KEY_A; 0; KEY_B; 0]
         = Some m ∧
    poisson_durations three_frames !! Z.to_nat (currentFrame m) = Some d ∧
    0 <= frameTimer m < d.
Proof.
  apply (timer_stays_below_duration three_frames (plain_frame WHITE)
           [0; KEY_A; 0; KEY_B; 0]).
  - exact wf_three_frames.
  - simpl. lia.
  - repeat (apply Forall_cons_2; [lia|]). apply Forall_nil_2.
  - apply plain_frame_length.
Defined.

(** ** One pass over the frames *)

Lemma ticks_app (a : Animation) (n k : nat) (m : Machine) :
  ticks a (n + k) m = m' ← ticks a n m; ticks a k m'.
Proof.
  revert m. induction n as [|n IH]; intros m; [done|].
  change (S n + k)%nat with (S (n + k)). rewrite !ticks_S.
  destruct (updateAnimation a m) as [m1|]; [|done].
  cbn [mbind option_bind]. apply IH.
Qed.

(** From the start of frame [i], the ticks of the frames [i] to the
    last one lead to the start of frame 0. *)
Lemma ticks_to_first_frame (a : Animation) (n i : nat) (m : Machine) :
  wf_animation a → 2 <= poisson_frame_count a <= 65536 →
  Forall (λ d, 1 <= d <= 65535) (poisson_durations a) →
  (i + n = length (poisson_durations a))%nat → (1 ≤ n)%nat →
  wf_screen m → currentFrame m = Z.of_nat i → frameTimer m = 0 →
  ∃ f0, poisson_frames a !! 0%nat = Some f0 ∧
    ticks a (sum_list_with Z.to_nat (drop i (poisson_durations a))) m =
    Some {| currentFrame := 0; frameTimer := 0;
            playingAnimation := playingAnimation m; videoBuffer := f0 |}.
Proof.
  intros Hwf Hfc Hds. revert i m.
  induction n as [|n IH]; intros i m Hlen Hn Hm Hcf Ht; [lia|].
  pose proof (wf_durations a Hwf) as Hcount.
  destruct (lookup_lt_is_Some_2 (poisson_durations a) i) as [d Hd]; [lia|].
  pose proof (Forall_lookup_1 _ _ _ _ Hds Hd) as Hrange. simpl in Hrange.
  rewrite (drop_S _ _ _ Hd). cbn [sum_list_with]. rewrite ticks_app.
  assert (frame_in_range a m) as Hin by (unfold frame_in_range; lia).
  destruct (ticks_advance a m d Hwf Hm) as (f & Hf & ->);
    [lia|done|by rewrite Hcf, Nat2Z.id|unfold U16.modulus; lia|done|].
  cbn [mbind option_bind].
  rewrite next_frame_mod in * by (done || unfold U16.modulus; lia).
  destruct (decide (n = 0)%nat) as [->|Hmore].
  - replace (currentFrame m + 1) with (poisson_frame_count a) in * by lia.
    rewrite Z.mod_same in * by lia.
    rewrite drop_ge by lia. exists f. done.
  - rewrite Z.mod_small in * by lia.
    assert (length f = screen_size) as Hlenf.
    { by apply (Forall_lookup_1 _ _ _ _ (wf_pixels a Hwf) Hf). }
    destruct (IH (S i)
      {| currentFrame := currentFrame m + 1; frameTimer := 0;
         playingAnimation := playingAnimation m; videoBuffer := f |})
      as (f0 & Hf0 & Hrun); [lia|lia|exact Hlenf|globals; lia|done|].
    exists f0. done.
Qed.

(** X6: with between 2 and 65536 frames and every duration between 1
    and 65535, from the start of frame 0, in Playing mode and without a
    button, the sum of the durations in ticks leads back to the start
    of frame 0, frame 0 on the screen: the animation loops with that
    period. *)
Theorem animation_loops (a : Animation) (m : Machine) (inputs : list Z) :
  wf_animation a → wf_screen m →
  2 <= poisson_frame_count a <= 65536 →
  Forall (λ d, 1 <= d <= 65535) (poisson_durations a) →
  currentFrame m = 0 → frameTimer m = 0 → playingAnimation m = true →
  Forall idle inputs → length inputs = cycle_ticks a →
  ∃ f0, poisson_frames a !! 0%nat = Some f0 ∧
    main_loop a inputs m =
    Some {| currentFrame := 0; frameTimer := 0;
            playingAnimation := true; videoBuffer := f0 |}.
Proof.
  intros Hwf Hm Hfc Hds Hcf Ht Hplay Hidle Hlen.
  destruct (ticks_to_first_frame a (length (poisson_durations a)) 0 m)
    as (f0 & Hf0 & Hrun); try done.
  - rewrite (wf_durations a Hwf). lia.
  - exists f0. split; [exact Hf0|].
    rewrite main_loop_idle_playing, Hlen by done.
    unfold cycle_ticks. rewrite drop_0 in Hrun. by rewrite Hrun, Hplay.
Qed.

Lemma animation_loops_witness :
  ∃ f0, poisson_frames three_frames !! 0%nat = Some f0 ∧
    main_loop three_frames [0; 0; 0; 0; 0; 0] playing_first =
    Some {| currentFrame := 0; frameTimer := 0;
            playingAnimation := true; videoBuffer := f0 |}.
Proof.
  apply (animation_loops three_frames playing_first [0; 0; 0; 0; 0; 0]).
  - exact wf_three_frames.
  - apply plain_frame_length.
  - simpl. lia.
  - repeat (apply Forall_cons_2; [lia|]). apply Forall_nil_2.
  - reflexivity.
  - reflexivity.
  - reflexivity.
  - repeat (apply Forall_cons_2; [split; reflexivity|]). apply Forall_nil_2.
  - reflexivity.
Defined.

(** ** Durations out of the ordinary *)



(** X8: a frame whose duration is 65536 or more is never left by the
    ticks: the 16-bit timer wraps to 0 before it reaches the duration,
    the frame index stays and nothing is drawn, however many ticks
    pass. *)
Theorem overlong_duration_stalls (a : Animation) (m : Machine) (d : Z)
    (inputs : list Z) :
  2 <= poisson_frame_count a →
  poisson_durations a !! Z.to_nat (currentFrame m) = Some d →
  65536 <= d → 0 <= frameTimer m < 65536 →
  playingAnimation m = true → Forall idle inputs →
  main_loop a inputs m =
  Some (with_frameTimer
          ((frameTimer m + Z.of_nat (length inputs)) mod 65536) m).
Proof.
  intros Hfc Hd Hlong Ht Hplay Hidle.
  rewrite main_loop_idle_playing by done.
  induction (length inputs) as [|n IH].
  - rewrite Z.add_0_r, Z.mod_small by lia. by destruct m.
  - rewrite ticks_snoc, IH. cbn [mbind option_bind].
    rewrite (updateAnimation_hold a _ d); globals; [|done|done|].
    + do 2 f_equal. unfold U16.incr, U16.wrap, U16.modulus.
      rewrite Zplus_mod_idemp_l. f_equal. lia.
    + unfold U16.incr, U16.wrap, U16.modulus.
      pose proof (Z.mod_pos_bound
        ((frameTimer m + Z.of_nat n) mod 65536 + 1) 65536 ltac:(lia)). lia.
Qed.

Lemma overlong_duration_stalls_witness :
  main_loop long_hold [0; 0; 0] playing_first =
  Some (with_frameTimer
          ((frameTimer playing_first + Z.of_nat (length [0; 0; 0]))
           mod 65536) playing_first).
Proof.
  apply (overlong_duration_stalls long_hold playing_first 65536 [0; 0; 0]).
  - simpl. lia.
  - reflexivity.
  - lia.
  - simpl. lia.
  - reflexivity.
  - repeat (apply Forall_cons_2; [split; reflexivity|]). apply Forall_nil_2.
Defined.

(** ** The B button from any state *)

(** With the B button, the iteration ends as [restart] does from some
    screen: the one found, or the colour bars of the A button. *)
Lemma loop_body_resume_restart (a : Animation) (keys : Z) (m : Machine) :
  key_down keys KEY_B = true → wf_screen m →
  ∃ buf, length buf = screen_size ∧ loop_body a keys m = restart a buf.
Proof.
  intros HB Hm. rewrite loop_body_resume by done.
  destruct (key_down keys KEY_A) eqn:HA.
  - destruct (handle_A_pressed keys m HA Hm) as (bars & Hbars & ->).
    exists bars. split; [apply Hbars|done].
  - unfold handle_A. rewrite HA. by exists (videoBuffer m).
Qed.

(** With a frame to draw, [restart] does not depend on the screen. *)
Lemma restart_fixed (a : Animation) (buf : list Z) :
  wf_animation a → 1 <= poisson_frame_count a → length buf = screen_size →
  ∃ f0, poisson_frames a !! 0%nat = Some f0 ∧ length f0 = screen_size ∧
    restart a buf =
    updateAnimation a
      {| currentFrame := 0; frameTimer := 0; playingAnimation := true;
         videoBuffer := f0 |}.
Proof.
  intros Hwf Hfc Hbuf.
  destruct (wf_frame_lookup a 0 Hwf ltac:(lia)) as (f0 & Hf0 & Hlen).
  exists f0. split; [exact Hf0|]. split; [exact Hlen|]. unfold restart.
  by rewrite (drawFrame_in_range a 0 _ f0) by (done || lia).
Qed.

(** X9: with at least one frame, an iteration in which the B button is
    pressed ends in a state that depends neither on the state before
    (mode, frame index, timer, screen) nor on the other keys: the
    animation plays again from frame 0, wherever it was. *)
Theorem resume_forgets_the_past (a : Animation) (keys1 keys2 : Z)
    (m1 m2 : Machine) :
  wf_animation a → 1 <= poisson_frame_count a →
  wf_screen m1 → wf_screen m2 →
  key_down keys1 KEY_B = true → key_down keys2 KEY_B = true →
  ∃ m', loop_body a keys1 m1 = Some m' ∧ loop_body a keys2 m2 = Some m' ∧
    playingAnimation m' = true.
Proof.
  intros Hwf Hfc Hm1 Hm2 HB1 HB2.
  destruct (loop_body_resume_restart a keys1 m1 HB1 Hm1) as (b1 & Hb1 & ->).
  destruct (loop_body_resume_restart a keys2 m2 HB2 Hm2) as (b2 & Hb2 & ->).
  destruct (restart_fixed a b1 Hwf Hfc Hb1) as (f0 & Hf0 & Hlen & ->).
  destruct (restart_fixed a b2 Hwf Hfc Hb2) as (g0 & Hg0 & _ & ->).
  assert (g0 = f0) as -> by congruence.
  destruct (updateAnimation_Some a
    {| currentFrame := 0; frameTimer := 0; playingAnimation := true;
       videoBuffer := f0 |} Hwf Hlen) as (m' & Hrun & _ & Hmode & _).
  { intros _. unfold frame_in_range. globals. lia. }
  exists m'. by rewrite Hrun.
Qed.

Lemma resume_forgets_the_past_witness :
  ∃ m', loop_body three_frames KEY_B paused_second = Some m' ∧
    loop_body three_frames 3 playing_first = Some m' ∧
    playingAnimation m' = true.
Proof.
  apply (resume_forgets_the_past three_frames KEY_B 3 paused_second
           playing_first).
  - exact wf_three_frames.
  - simpl. lia.
  - apply plain_frame_length.
  - apply plain_frame_length.
  - reflexivity.
  - reflexivity.
Defined.

(** ** The other keys *)

Lemma key_down_masked (keys : Z) :
  key_down (Z.land keys 3) KEY_A = key_down keys KEY_A ∧
  key_down (Z.land keys 3) KEY_B = key_down keys KEY_B.
Proof.
  unfold key_down, KEY_A, KEY_B. by rewrite <- !Z.land_assoc.
Qed.

(** X10: an iteration of the main loop looks at the A and B bits of
    the keys only: the keys masked to these two bits give the same
    iteration, and keys with none of the two are no key at all. *)
Theorem other_keys_are_ignored (a : Animation) (keys : Z) (m : Machine) :
  loop_body a keys m = loop_body a (Z.land keys 3) m ∧
  (Z.land keys 3 = 0 → loop_body a keys m = loop_body a 0 m).
Proof.
  assert (loop_body a keys m = loop_body a (Z.land keys 3) m) as Hmask.
  { destruct (key_down_masked keys) as [HA HB].
    unfold loop_body, handle_A, handle_B. by rewrite HA, HB. }
  split; [exact Hmask|]. intros Hnone. by rewrite Hmask, Hnone.
Qed.

Lemma other_keys_are_ignored_witness :
  loop_body three_frames 12 playing_second
  = loop_body three_frames 0 playing_second.
Proof.
  exact (proj2 (other_keys_are_ignored three_frames 12 playing_second)
           eq_refl).
Defined.

(** ** The tables that are not read *)

(** [main] depends on the animation through [drawFrame] at frame 0
    and [updateAnimation] only. *)
Lemma main_ext (a a' : Animation) (vram inputs : list Z) :
  (∀ m, drawFrame a 0 m = drawFrame a' 0 m) →
  (∀ m, updateAnimation a m = updateAnimation a' m) →
  main a vram inputs = main a' vram inputs.
Proof.
  intros Hdraw Hupd.
  assert (∀ keys m, loop_body a keys m = loop_body a' keys m) as Hbody.
  { intros keys m. unfold loop_body, handle_B.
    destruct (handle_A keys m) as [m1|]; [|done]. cbn [mbind option_bind].
    globals. destruct (key_down keys KEY_B).
    - rewrite Hdraw. destruct (drawFrame a' 0 _) as [m2|]; [|done].
      cbn [mbind option_bind]. by rewrite Hupd.
    - cbn [mbind option_bind]. by rewrite Hupd. }
  unfold main, main_start. destruct (clear_screen vram) as [buf|]; [|done].
  cbn [mbind option_bind]. rewrite Hdraw.
  destruct (drawFrame a' 0 _) as [m0|]; [|done]. cbn [mbind option_bind].
  revert m0. induction inputs as [|keys inputs IH]; intros m0; [done|].
  cbn [main_loop]. rewrite Hbody.
  destruct (loop_body a' keys m0) as [m1|]; [|done].
  cbn [mbind option_bind]. apply IH.
Qed.

(** X11: with at most one frame the table of the durations is never
    read, and with no frame the table of the frames is not read either:
    the program runs the same whatever these tables hold. *)
Theorem unused_tables_are_not_read (a : Animation) (ds : list Z)
    (fs : list (list Z)) (vram inputs : list Z) :
  poisson_frame_count a <= 1 →
  main (with_durations ds a) vram inputs = main a vram inputs ∧
  (poisson_frame_count a <= 0 →
   main (with_tables ds fs a) vram inputs = main a vram inputs).
Proof.
  intros Hfc. split.
  - apply main_ext; [done|]. intros m.
    by rewrite !updateAnimation_single.
  - intros Hnone. apply main_ext; intros m.
    + by rewrite !drawFrame_out_of_range.
    + by rewrite !updateAnimation_single.
Qed.

Lemma unused_tables_are_not_read_witness :
  main (with_durations [] one_frame) (plain_frame BLACK) [0; KEY_B; KEY_A]
  = main one_frame (plain_frame BLACK) [0; KEY_B; KEY_A] ∧
  main (with_tables [7] [[]] no_frames) (plain_frame BLACK) [0; KEY_B; KEY_A]
  = main no_frames (plain_frame BLACK) [0; KEY_B; KEY_A].
Proof.
  assert (poisson_frame_count one_frame <= 1) as Hone by (simpl; lia).
  assert (poisson_frame_count no_frames <= 1) as Hnone by (simpl; lia).
  assert (poisson_frame_count no_frames <= 0) as Hzero by (simpl; lia).
  split.
  - exact (proj1 (unused_tables_are_not_read one_frame [] []
                    (plain_frame BLACK) [0; KEY_B; KEY_A] Hone)).
  - exact (proj2 (unused_tables_are_not_read no_frames [7] [[]]
                    (plain_frame BLACK) [0; KEY_B; KEY_A] Hnone) Hzero).
Defined.

(** ** No frame at all *)

(** Without a frame, an iteration from the black screen of the start. *)
Lemma loop_body_no_frame_black (a : Animation) (keys : Z) :
  poisson_frame_count a <= 0 →
  let start := {| currentFrame := 0; frameTimer := 0;
                  playingAnimation := true;
                  videoBuffer := replicate screen_size BLACK |} in
  (key_down keys KEY_A = false → loop_body a keys start = Some start) ∧
  (key_down keys KEY_A = true →
     ∃ m, loop_body a keys start = Some m ∧ currentFrame m = 0 ∧
       frameTimer m = 0 ∧ shows_bars (videoBuffer m)).
Proof.
  intros Hfc start. unfold loop_body. split; intros HA.
  - unfold handle_A, handle_B. rewrite HA. cbn [mbind option_bind].
    assert (updateAnimation a start = Some start) as Hupd
      by (apply updateAnimation_single; lia).
    destruct (key_down keys KEY_B); [|done].
    subst start. globals.
    by rewrite drawFrame_out_of_range by lia.
  - destruct (handle_A_pressed keys start HA) as (bars & Hbars & ->);
      [apply length_replicate|].
    cbn [mbind option_bind]. unfold handle_B.
    destruct (key_down keys KEY_B).
    + globals. rewrite drawFrame_out_of_range by lia.
      cbn [mbind option_bind]. globals.
      rewrite updateAnimation_single by lia. eexists. by split.
    + cbn [mbind option_bind]. globals. eexists. by split.
Qed.

(** Without a frame, the colour bars stay on the screen. *)
Lemma main_loop_no_frame_bars (a : Animation) (inputs : list Z)
    (m : Machine) :
  poisson_frame_count a <= 0 →
  currentFrame m = 0 → frameTimer m = 0 → shows_bars (videoBuffer m) →
  ∃ m', main_loop a inputs m = Some m' ∧ currentFrame m' = 0 ∧
    frameTimer m' = 0 ∧ shows_bars (videoBuffer m').
Proof.
  intros Hfc. revert m.
  induction inputs as [|keys inputs IH]; intros m Hcf Ht Hbars;
    [by exists m|].
  cbn [main_loop].
  assert (∃ m1, loop_body a keys m = Some m1 ∧ currentFrame m1 = 0 ∧
            frameTimer m1 = 0 ∧ shows_bars (videoBuffer m1))
    as (m1 & -> & Hcf1 & Ht1 & Hbars1).
  { unfold loop_body.
    assert (∃ m1, handle_A keys m = Some m1 ∧ currentFrame m1 = 0 ∧
              frameTimer m1 = 0 ∧ shows_bars (videoBuffer m1))
      as (m1 & -> & Hcf1 & Ht1 & Hbars1).
    { destruct (key_down keys KEY_A) eqn:HA.
      - destruct (handle_A_pressed keys m HA (proj1 Hbars))
          as (bars & Hshown & ->).
        eexists. by split.
      - unfold handle_A. rewrite HA. by exists m. }
    cbn [mbind option_bind]. unfold handle_B.
    destruct (key_down keys KEY_B).
    - globals. rewrite drawFrame_out_of_range by lia.
      cbn [mbind option_bind]. globals.
      rewrite updateAnimation_single by lia. eexists. by split.
    - cbn [mbind option_bind]. rewrite updateAnimation_single by lia.
      exists m1. split; [by destruct (playingAnimation m1)|done]. }
  cbn [mbind option_bind]. by apply IH.
Qed.

(** X12: without a frame ([poisson_frame_count] at 0) the program runs
    without a fault for any keys and any tables: the frame index and
    the timer stay at 0, the screen is black as long as the A button
    has not been pressed and shows the colour bars once it has been,
    also after the B button. *)
Theorem no_frame_runs (a : Animation) (vram inputs : list Z) :
  poisson_frame_count a <= 0 → length vram = screen_size →
  ∃ m, main a vram inputs = Some m ∧
    currentFrame m = 0 ∧ frameTimer m = 0 ∧
    (Exists (λ keys, key_down keys KEY_A = true) inputs →
     shows_bars (videoBuffer m)) ∧
    (Forall (λ keys, key_down keys KEY_A = false) inputs →
     playingAnimation m = true ∧
     videoBuffer m = replicate screen_size BLACK).
Proof.
  intros Hfc Hvram. unfold main, main_start.
  rewrite (clear_screen_black vram Hvram). cbn [mbind option_bind].
  rewrite drawFrame_out_of_range by lia. cbn [mbind option_bind].
  induction inputs as [|keys inputs IH].
  - eexists. split; [done|]. split; [done|]. split; [done|]. split.
    + intros Hsome. by apply Exists_nil in Hsome.
    + done.
  - cbn [main_loop].
    destruct (loop_body_no_frame_black a keys Hfc) as [Hnot Hpressed].
    destruct (key_down keys KEY_A) eqn:HA.
    + destruct (Hpressed eq_refl) as (m1 & -> & Hcf1 & Ht1 & Hbars1).
      cbn [mbind option_bind].
      destruct (main_loop_no_frame_bars a inputs m1 Hfc Hcf1 Ht1 Hbars1)
        as (m & Hrun & Hcf & Ht & Hbars).
      exists m. split; [exact Hrun|]. split; [exact Hcf|].
      split; [exact Ht|]. split; [done|].
      intros Hnone. apply Forall_cons_1 in Hnone as [Hkeys _]. congruence.
    + rewrite (Hnot eq_refl). cbn [mbind option_bind].
      destruct IH as (m & Hrun & Hcf & Ht & Hsome & Hnone).
      exists m. split; [exact Hrun|]. split; [exact Hcf|].
      split; [exact Ht|]. split.
      * intros Hex. apply Exists_cons in Hex as [Hkeys|Hrest];
          [congruence|by apply Hsome].
      * intros Hall. apply Forall_cons_1 in Hall as [_ Hrest].
        by apply Hnone.
Qed.

Lemma no_frame_runs_witness :
  ∃ m, main no_frames (plain_frame WHITE) [0; KEY_B; KEY_A; KEY_B]
       = Some m ∧
    currentFrame m = 0 ∧ frameTimer m = 0 ∧
    (Exists (λ keys, key_down keys KEY_A = true) [0; KEY_B; KEY_A; KEY_B] →
     shows_bars (videoBuffer m)) ∧
    (Forall (λ keys, key_down keys KEY_A = false) [0; KEY_B; KEY_A; KEY_B] →
     playingAnimation m = true ∧
     videoBuffer m = replicate screen_size BLACK).
Proof.
  apply (no_frame_runs no_frames (plain_frame WHITE)
           [0; KEY_B; KEY_A; KEY_B]).
  - simpl. lia.
  - apply plain_frame_length.
Defined.
